(** * Frequency-constraint table of drivers/thermal/mi_thermal_interface.c

    A shallow embedding of the per-CPU frequency capping core of the driver:
    the ladder builder ([find_next_max], the fill loop of
    [cpu_thermal_init]), the level scan of [cpu_limits_set_level], the
    level update [cpufreq_set_level], the sysfs entry point
    [cpu_limits_store], initialisation and teardown.

    Frequencies are [u32] values, kept as [Z]; levels index the ladder and
    are kept as [nat].  The freq-QoS backend, the allocator and the cpufreq
    core are outside the file: their answers are taken from a [platform]
    and every call made to them is recorded in the kernel's [history]. *)

From Stdlib Require Import ZArith List Lia Bool Sorted Permutation.
Import ListNotations.
Open Scope Z_scope.

(** ** Machine integers and error numbers *)

Definition UINT_MAX : Z := 2 ^ 32 - 1.

(** Conversion of a C integer to [unsigned int]. *)
Definition to_u32 (z : Z) : Z := z mod 2 ^ 32.

Definition u32 (z : Z) : Prop := 0 <= z <= UINT_MAX.

Module Errno.
Definition ESRCH : Z := 3.
Definition ENOMEM : Z := 12.
Definition ENODEV : Z := 19.
Definition EINVAL : Z := 22.
End Errno.

(** ** The raw capability table of the cpufreq core *)

(** [freq = -1] in [cpu_thermal_init] and [~0u] in the cpufreq header are
    the same [unsigned int]. *)
Definition CPUFREQ_ENTRY_INVALID : Z := to_u32 (-1).

(** Modelled from the spec: the iteration macro
    [cpufreq_for_each_valid_entry] of include/linux/cpufreq.h, which is not
    part of the file.  A raw table is the list of the [frequency] fields
    that precede the end marker; the macro visits, in order, the entries
    that are valid, that is, not marked [CPUFREQ_ENTRY_INVALID]. *)
Definition valid_entries (table : list Z) : list Z :=
  filter (fun f => negb (f =? CPUFREQ_ENTRY_INVALID)) table.

(** Modelled from the spec: [cpufreq_table_count_valid_entries], the
    pre-counted number of valid entries of the raw capability set (zero for
    an absent table, which the empty list stands for). *)
Definition cpufreq_table_count_valid_entries (table : list Z) : nat :=
  length (valid_entries table).

(** ** Ladder builder *)

(** One pass of the body of [find_next_max] over an entry. *)
Definition next_max_step (prev_max : Z) (max f : Z) : Z :=
  if (f >? max) && (f <? prev_max) then f else max.

Definition find_next_max (table : list Z) (prev_max : Z) : Z :=
  fold_left (next_max_step prev_max) (valid_entries table) 0.

(** The fill loop [for (i = 0, freq = -1; i <= max_level; i++)]: [n] is the
    number of slots still to fill and [freq] the previous maximum. *)
Fixpoint fill_freq_table (table : list Z) (n : nat) (freq : Z) : list Z :=
  match n with
  | O => []
  | S n' =>
      let freq' := find_next_max table freq in
      freq' :: fill_freq_table table n' freq'
  end.

(** The table written by [cpu_thermal_init] once [max_level] is known:
    slots [0 .. max_level], scanning down from [(unsigned)-1]. *)
Definition build_freq_table (table : list Z) (max_level : nat) : list Z :=
  fill_freq_table table (S max_level) (to_u32 (-1)).

(** The ladder of a raw table: [max_level = i - 1] where [i] is the number of
    valid entries ("max_level is an index, not a counter"). *)
Definition ladder_of (table : list Z) : list Z :=
  build_freq_table table (cpufreq_table_count_valid_entries table - 1).

(** The distinct values of a capability set, in order of first occurrence. *)
Definition distinct (l : list Z) : list Z := nodup Z.eq_dec l.

(** ** Data model *)

(** The part of [struct cpufreq_policy] that the driver reads. *)
Record cpufreq_policy : Type := mk_policy {
  policy_cpu : Z;
  policy_freq_table : list Z
}.

(** [struct cpufreq_device].  [qos_req] points to the per-CPU request
    [&per_cpu(qos_req, cpu)]; the pointer is named by that cpu number. *)
Record cpufreq_device : Type := mk_cdev {
  id : Z;
  cpufreq_state : nat;
  max_level : nat;
  freq_table : list Z;
  policy : cpufreq_policy;
  qos_req : Z
}.

Definition set_cpufreq_state (cdev : cpufreq_device) (state : nat)
  : cpufreq_device :=
  {| id := id cdev;
     cpufreq_state := state;
     max_level := max_level cdev;
     freq_table := freq_table cdev;
     policy := policy cdev;
     qos_req := qos_req cdev |}.

(** Calls that leave the file, and the list operations on
    [cpufreq_dev_list], in the order in which they are executed. *)
Inductive event : Type :=
| FreqQosAdd (req : Z) (value : Z)
| FreqQosUpdate (req : Z) (value : Z)
| FreqQosRemove (req : Z)
| ListAdd (cdev : cpufreq_device)
| ListDel (cdev : cpufreq_device)
| Kfree (cdev : cpufreq_device). (* the entry's table, then the entry *)

(** What the rest of the kernel answers.  [freq_qos_ret h c] is the value
    returned by the freq-QoS call [c] issued after the history [h]. *)
Record platform : Type := mk_platform {
  possible_cpus : list Z;
  cpufreq_cpu_get : Z -> option cpufreq_policy;
  kzalloc : Z -> bool;
  kmalloc_array : Z -> bool;
  freq_qos_ret : list event -> event -> Z
}.

(** The driver's global state: [cpufreq_dev_list] (head first) and the
    record of what has been executed so far. *)
Record kernel : Type := mk_kernel {
  cpufreq_dev_list : list cpufreq_device;
  history : list event
}.

(** The invariant of a table entry. *)
Definition wf_device (cdev : cpufreq_device) : Prop :=
  (cpufreq_state cdev <= max_level cdev)%nat /\
  length (freq_table cdev) = S (max_level cdev).

(** What [cpu_thermal_init] establishes for an entry it creates: level 0,
    the ladder of the policy's raw table, and a request registered with the
    frequency of slot 0, which no valid entry of the raw table exceeds. *)
Definition seeded_entry (h : list event) (cdev : cpufreq_device) : Prop :=
  cpufreq_state cdev = O /\
  freq_table cdev = ladder_of (policy_freq_table (policy cdev)) /\
  exists f0,
    nth_error (freq_table cdev) 0 = Some f0 /\
    In (FreqQosAdd (qos_req cdev) f0) h /\
    (Forall u32 (policy_freq_table (policy cdev)) ->
     forall x, In x (valid_entries (policy_freq_table (policy cdev))) ->
               x <= f0).

Definition is_update (e : event) : bool :=
  match e with FreqQosUpdate _ _ => true | _ => false end.

(** Number of [freq_qos_update_request] calls in a history. *)
Definition updates (h : list event) : nat := length (filter is_update h).

(** Outcome of the level scan of [cpu_limits_set_level]. *)
Inductive scan_result : Type :=
| Matched (level : nat)
| NoMatch.

(** How one iteration of the loop of [cpu_thermal_init] ends. *)
Inductive flow : Type :=
| Next (ret : Z)
| Return (code : Z).

(** A table read [freq_table[i]] outside the allocated slots has no defined
    result in C: the functions below answer [None] there. *)
Notation "x <- c1 ;; c2" :=
  (match c1 with Some x => c2 | None => None end)
  (at level 61, c1 at next level, right associativity).
Notation "' pat <- c1 ;; c2" :=
  (match c1 with Some pat => c2 | None => None end)
  (at level 61, pat pattern, c1 at next level, right associativity).

Section Driver.

Variable P : platform.

(** ** Capping *)

Definition cpufreq_set_level (h : list event) (cdev : cpufreq_device)
           (state : nat) : option (cpufreq_device * list event * Z) :=
  if (max_level cdev <? state)%nat then Some (cdev, h, - Errno.EINVAL)
  else if (cpufreq_state cdev =? state)%nat then Some (cdev, h, 0)
  else
    f <- nth_error (freq_table cdev) state ;;
    let call := FreqQosUpdate (qos_req cdev) f in
    Some (set_cpufreq_state cdev state, h ++ [call], freq_qos_ret P h call).

(** [for (level = ...; level <= max_level; level++)] with [fuel]
    iterations left. *)
Fixpoint scan_levels (cdev : cpufreq_device) (max_freq : Z)
         (fuel level : nat) : option scan_result :=
  match fuel with
  | O => Some NoMatch
  | S fuel' =>
      f <- nth_error (freq_table cdev) level ;;
      if max_freq >=? f then Some (Matched level)
      else scan_levels cdev max_freq fuel' (S level)
  end.

(** The Level Resolver: the inner loop of [cpu_limits_set_level]. *)
Definition resolve (cdev : cpufreq_device) (max_freq : Z)
  : option scan_result :=
  scan_levels cdev max_freq (S (max_level cdev)) 0.

(** [list_for_each_entry] over the table, entered at [l]. *)
Fixpoint cpu_limits_walk (l : list cpufreq_device) (h : list event)
         (cpu max_freq : Z) : option (list cpufreq_device * list event) :=
  match l with
  | [] => Some ([], h)
  | cdev :: rest =>
      if to_u32 (id cdev) =? cpu then
        r <- resolve cdev max_freq ;;
        match r with
        | NoMatch => Some (cdev :: rest, h)
        | Matched level =>
            '(cdev', h', _) <- cpufreq_set_level h cdev level ;;
            Some (cdev' :: rest, h')
        end
      else
        '(rest', h') <- cpu_limits_walk rest h cpu max_freq ;;
        Some (cdev :: rest', h')
  end.

(** [void cpu_limits_set_level(unsigned int cpu, unsigned int max_freq)]. *)
Definition cpu_limits_set_level (k : kernel) (cpu max_freq : Z)
  : option kernel :=
  '(l, h) <- cpu_limits_walk (cpufreq_dev_list k) (history k) cpu max_freq ;;
  Some {| cpufreq_dev_list := l; history := h |}.

(** [cpu_limits_store].  [parsed] is what [sscanf(buf, "cpu%u %u", ...)]
    read: [Some (cpu, max)] when it converted both fields, [None]
    otherwise.  The result is the new state and the returned [ssize_t]. *)
Definition cpu_limits_store (k : kernel) (parsed : option (Z * Z))
           (len : Z) : option (kernel * Z) :=
  match parsed with
  | None => Some (k, - Errno.EINVAL)
  | Some (cpu, max) =>
      k' <- cpu_limits_set_level k cpu max ;;
      Some (k', len)
  end.

(** ** Initialisation *)

(** The body of [for_each_possible_cpu (cpu)] in [cpu_thermal_init]. *)
Definition cpu_thermal_init_body (k : kernel) (cpu : Z)
  : option (kernel * flow) :=
  match cpufreq_cpu_get P cpu with
  | None => Some (k, Return (- Errno.ESRCH))
  | Some pol =>
      let i := cpufreq_table_count_valid_entries (policy_freq_table pol) in
      if (i =? 0)%nat then Some (k, Return (- Errno.ENODEV))
      else if negb (kzalloc P cpu) then Some (k, Return (- Errno.ENOMEM))
      else if negb (kmalloc_array P cpu)
      then Some (k, Return (- Errno.ENOMEM))
      else
        let table := build_freq_table (policy_freq_table pol) (i - 1) in
        f0 <- nth_error table 0 ;;
        let cdev :=
          {| id := policy_cpu pol;
             cpufreq_state := 0;
             max_level := i - 1;
             freq_table := table;
             policy := pol;
             qos_req := cpu |} in
        let call := FreqQosAdd cpu f0 in
        let ret := freq_qos_ret P (history k) call in
        let h := history k ++ [call] in
        if ret <? 0
        then Some ({| cpufreq_dev_list := cpufreq_dev_list k;
                      history := h |}, Return ret)
        else Some ({| cpufreq_dev_list := cdev :: cpufreq_dev_list k;
                      history := h ++ [ListAdd cdev] |}, Next ret)
  end.

(** The loop itself: [Return code] when an iteration left the function,
    [Next ret] when the list of processors is exhausted. *)
Fixpoint cpu_thermal_init_loop (cpus : list Z) (k : kernel) (ret : Z)
  : option (kernel * flow) :=
  match cpus with
  | [] => Some (k, Next ret)
  | cpu :: rest =>
      '(k', fl) <- cpu_thermal_init_body k cpu ;;
      match fl with
      | Return code => Some (k', Return code)
      | Next ret' => cpu_thermal_init_loop rest k' ret'
      end
  end.

(** [cpu_thermal_init]; [ret0] is the indeterminate initial value of the
    local [ret], and the loop is followed by [return ret]. *)
Definition cpu_thermal_init (k : kernel) (ret0 : Z) : option (kernel * Z) :=
  '(k', fl) <- cpu_thermal_init_loop (possible_cpus P) k ret0 ;;
  match fl with
  | Return code => Some (k', code)
  | Next ret => Some (k', ret)
  end.

(** The ways in which the iteration for [cpu] can fail in state [k]:
    no policy, no valid entry, a failed allocation, a refused
    registration. *)
Definition init_fails_at (k : kernel) (cpu : Z) : Prop :=
  match cpufreq_cpu_get P cpu with
  | None => True
  | Some pol =>
      let i := cpufreq_table_count_valid_entries (policy_freq_table pol) in
      i = O \/ kzalloc P cpu = false \/ kmalloc_array P cpu = false \/
      freq_qos_ret P (history k)
        (FreqQosAdd cpu
           (hd 0 (build_freq_table (policy_freq_table pol) (i - 1)))) < 0
  end.

(** [mi_thermal_interface_init]: the value of [cpu_thermal_init()] is
    dropped, the sysfs node and the notifiers that follow do not touch the
    table, and the function ends in [return 0]. *)
Definition mi_thermal_interface_init (k : kernel) (ret0 : Z)
  : option (kernel * Z) :=
  '(k', _) <- cpu_thermal_init k ret0 ;;
  Some (k', 0).

End Driver.

(** ** Teardown *)

(** [list_for_each_entry_safe] in [destory_thermal_cpu]: the walk starts at
    the head and unlinks the entry it visits, so the list left behind by an
    iteration is the part not yet visited. *)
Fixpoint destory_walk (l : list cpufreq_device) (h : list event) : kernel :=
  match l with
  | [] => {| cpufreq_dev_list := []; history := h |}
  | priv :: tmp =>
      destory_walk tmp
        (h ++ [FreqQosRemove (qos_req priv); ListDel priv; Kfree priv])
  end.

Definition destory_thermal_cpu (k : kernel) : kernel :=
  destory_walk (cpufreq_dev_list k) (history k).

(** What [destory_thermal_cpu] executes for a list of entries. *)
Definition destory_events (l : list cpufreq_device) : list event :=
  flat_map (fun priv => [FreqQosRemove (qos_req priv); ListDel priv;
                         Kfree priv]) l.

(** The states the table goes through during [destory_thermal_cpu], one
    after each statement of the loop body that changes the list or the
    backend: the list still linked and the history so far. *)
Fixpoint destory_run (l : list cpufreq_device) (h : list event)
  : list kernel :=
  match l with
  | [] => []
  | priv :: tmp =>
      let h1 := h ++ [FreqQosRemove (qos_req priv)] in
      let h2 := h1 ++ [ListDel priv] in
      {| cpufreq_dev_list := priv :: tmp; history := h1 |}
      :: {| cpufreq_dev_list := tmp; history := h2 |}
      :: destory_run tmp (h2 ++ [Kfree priv])
  end.

(** ** Platforms used in the examples *)

Definition ladder_2000 : list Z := [2000; 1500; 1000].

Definition policy0 : cpufreq_policy :=
  {| policy_cpu := 0; policy_freq_table := [1000; 2000; 1500] |}.

Definition cdev0 : cpufreq_device :=
  {| id := 0; cpufreq_state := 0; max_level := 2;
     freq_table := ladder_2000; policy := policy0; qos_req := 0 |}.

(** A backend that accepts every request. *)
Definition platform_ok : platform :=
  {| possible_cpus := [0];
     cpufreq_cpu_get := fun cpu => if cpu =? 0 then Some policy0 else None;
     kzalloc := fun _ => true;
     kmalloc_array := fun _ => true;
     freq_qos_ret := fun _ _ => 1 |}.

(** A backend that refuses every update. *)
Definition platform_update_fails : platform :=
  {| possible_cpus := [0];
     cpufreq_cpu_get := fun cpu => if cpu =? 0 then Some policy0 else None;
     kzalloc := fun _ => true;
     kmalloc_array := fun _ => true;
     freq_qos_ret := fun _ c => if is_update c then - Errno.EINVAL else 1 |}.

(** Three processors, the middle one without a cpufreq policy. *)
Definition platform_no_policy : platform :=
  {| possible_cpus := [0; 1; 2];
     cpufreq_cpu_get := fun cpu => if cpu =? 1 then None else Some policy0;
     kzalloc := fun _ => true;
     kmalloc_array := fun _ => true;
     freq_qos_ret := fun _ _ => 1 |}.

(** A processor whose raw table lists 1000 twice. *)
Definition policy_dup : cpufreq_policy :=
  {| policy_cpu := 4; policy_freq_table := [1000; 1000] |}.

Definition cdev_dup : cpufreq_device :=
  {| id := 4; cpufreq_state := 0; max_level := 1;
     freq_table := ladder_of [1000; 1000]; policy := policy_dup;
     qos_req := 4 |}.

Definition kernel_dup : kernel :=
  {| cpufreq_dev_list := [cdev_dup]; history := [] |}.

Definition kernel0 : kernel :=
  {| cpufreq_dev_list := [cdev0]; history := [] |}.

Definition boot : kernel := {| cpufreq_dev_list := []; history := [] |}.

(** ** Module exit *)

(** [mi_thermal_interface_exit]: the display client is unregistered and the
    sysfs node destroyed, neither of which touches the table, and then
    [destory_thermal_cpu] runs. *)
Definition mi_thermal_interface_exit (k : kernel) : kernel :=
  destory_thermal_cpu k.

(** ** Screen monitor *)

Section ScreenMonitor.

(** Constants of drm/mi_disp_notifier.h and linux/notifier.h, which are not
    part of the file. *)
Variables MI_DISP_DPMS_EVENT MI_DISP_DPMS_ON NOTIFY_OK : Z.

(** [screen_state_for_thermal_callback].  [data] is the [void *data]
    argument: [None] for a null pointer, [Some None] for an event whose
    [data] field is null, [Some (Some blank)] otherwise, [blank] being the
    [int] that the field points to.  The result is the new
    [sm.screen_state], the returned value, and whether [sysfs_notify] was
    called. *)
Definition screen_state_for_thermal_callback
           (screen_state : Z) (val : Z) (data : option (option Z))
  : Z * Z * bool :=
  match data with
  | Some (Some blank) =>
      if negb (val =? MI_DISP_DPMS_EVENT) then (screen_state, 0, false)
      else
        ((if to_u32 blank =? to_u32 MI_DISP_DPMS_ON then 1 else 0),
         NOTIFY_OK, true)
  | _ => (screen_state, 0, false)
  end.

(** The value of [sm.screen_state] after the notifier chain delivered a
    sequence of events. *)
Fixpoint screen_state_after (screen_state : Z)
         (events : list (Z * option (option Z))) : Z :=
  match events with
  | [] => screen_state
  | (val, data) :: rest =>
      screen_state_after
        (fst (fst (screen_state_for_thermal_callback screen_state val data)))
        rest
  end.

End ScreenMonitor.

(** Two processors that share the policy of processor 0. *)
Definition platform_shared_policy : platform :=
  {| possible_cpus := [0; 1];
     cpufreq_cpu_get := fun _ => Some policy0;
     kzalloc := fun _ => true;
     kmalloc_array := fun _ => true;
     freq_qos_ret := fun _ _ => 1 |}.

(** User space writing to the [cpu_limits] attribute several times in a
    row: each write is given by what [sscanf] read from it and by its
    length; the value returned to the writer is not kept. *)
Fixpoint cpu_limits_writes (P : platform) (k : kernel)
         (writes : list (option (Z * Z) * Z)) : option kernel :=
  match writes with
  | [] => Some k
  | (parsed, len) :: rest =>
      '(k', _) <- cpu_limits_store P k parsed len ;;
      cpu_limits_writes P k' rest
  end.

(** * Properties *)

(** ** Ladder builder *)

Example build_unsorted : ladder_of [1000; 2000; 1500] = [2000; 1500; 1000].
Proof. reflexivity. Qed.

Example build_duplicates :
  ladder_of [1500; 2000; 1500; 2000; 1000] = [2000; 1500; 1000; 0; 0].
Proof. reflexivity. Qed.

Example build_skips_invalid : ladder_of [1000; 4294967295; 2000] = [2000; 1000].
Proof. reflexivity. Qed.

Example build_with_zero : ladder_of [0; 1000] = [1000; 0].
Proof. reflexivity. Qed.

Section NextMax.

Variable prev_max : Z.

Lemma next_max_step_cases (acc f : Z) :
  (next_max_step prev_max acc f = f /\ acc < f < prev_max) \/
  (next_max_step prev_max acc f = acc /\ ~ (acc < f < prev_max)).
Proof.
  unfold next_max_step.
  destruct (f >? acc) eqn:Hgt; destruct (f <? prev_max) eqn:Hlt; simpl;
    rewrite Z.gtb_ltb in Hgt;
    try apply Z.ltb_lt in Hgt; try apply Z.ltb_ge in Hgt;
    try apply Z.ltb_lt in Hlt; try apply Z.ltb_ge in Hlt;
    [left | right | right | right]; split; auto; lia.
Qed.

Lemma next_max_fold_ge (V : list Z) (acc : Z) :
  acc <= fold_left (next_max_step prev_max) V acc.
Proof.
  revert acc; induction V as [|f V IH]; intros acc; simpl; [lia|].
  specialize (IH (next_max_step prev_max acc f)).
  destruct (next_max_step_cases acc f) as [(E & H) | (E & H)];
    rewrite E in *; lia.
Qed.

Lemma next_max_fold_origin (V : list Z) (acc : Z) :
  fold_left (next_max_step prev_max) V acc = acc \/
  (In (fold_left (next_max_step prev_max) V acc) V /\
   acc < fold_left (next_max_step prev_max) V acc < prev_max).
Proof.
  revert acc; induction V as [|f V IH]; intros acc; simpl; [now left|].
  destruct (next_max_step_cases acc f) as [(E & H) | (E & H)]; rewrite E.
  - destruct (IH f) as [E' | (Hin & Hlt)].
    + rewrite E'; right; split; [now left | lia].
    + right; split; [now right | lia].
  - destruct (IH acc) as [E' | (Hin & Hlt)].
    + now left.
    + right; split; [now right | lia].
Qed.

Lemma next_max_fold_upper (V : list Z) (acc x : Z) :
  In x V -> x < prev_max ->
  x <= fold_left (next_max_step prev_max) V acc.
Proof.
  revert acc; induction V as [|f V IH]; intros acc Hin Hlt; simpl in *.
  - contradiction.
  - destruct Hin as [-> | Hin]; [|now apply IH].
    etransitivity; [|apply next_max_fold_ge].
    destruct (next_max_step_cases acc x) as [(E & H) | (E & H)];
      rewrite E; lia.
Qed.

End NextMax.

Lemma find_next_max_nonneg table prev_max : 0 <= find_next_max table prev_max.
Proof. apply next_max_fold_ge. Qed.

Lemma find_next_max_origin table prev_max :
  let m := find_next_max table prev_max in
  m = 0 \/ (In m (valid_entries table) /\ 0 < m < prev_max).
Proof.
  destruct (next_max_fold_origin prev_max (valid_entries table) 0)
    as [E | (Hin & Hlt)]; [now left | right].
  unfold find_next_max; auto.
Qed.

Lemma find_next_max_upper table prev_max x :
  In x (valid_entries table) -> x < prev_max ->
  x <= find_next_max table prev_max.
Proof. apply next_max_fold_upper. Qed.

Lemma find_next_max_below_zero table : find_next_max table 0 = 0.
Proof.
  destruct (find_next_max_origin table 0) as [E | (_ & H)]; [exact E | lia].
Qed.

Lemma fill_freq_table_length table n freq :
  length (fill_freq_table table n freq) = n.
Proof.
  revert freq; induction n as [|n IH]; intros freq; simpl; [|rewrite IH];
    reflexivity.
Qed.

Lemma fill_freq_table_zero table n :
  fill_freq_table table n 0 = repeat 0 n.
Proof.
  induction n as [|n IH]; simpl; [reflexivity|].
  rewrite find_next_max_below_zero, IH; reflexivity.
Qed.

(** The table is a strictly descending run of positive valid entries,
    followed by zeros only. *)
Lemma fill_freq_table_shape table n freq :
  exists run k,
    fill_freq_table table n freq = run ++ repeat 0 k /\
    StronglySorted Z.gt run /\
    Forall (fun x => 0 < x < freq /\ In x (valid_entries table)) run.
Proof.
  revert freq; induction n as [|n IH]; intros freq; simpl.
  - exists [], O; repeat split; constructor.
  - destruct (find_next_max_origin table freq) as [E | (Hin & Hpos)].
    + rewrite E, fill_freq_table_zero.
      exists [], (S n); repeat split; constructor.
    + destruct (IH (find_next_max table freq)) as (run & k & E & Hs & Hall).
      exists (find_next_max table freq :: run), k.
      rewrite E; repeat split.
      * constructor; [exact Hs|].
        eapply Forall_impl; [|exact Hall]; simpl; intros; lia.
      * constructor; [now split|].
        eapply Forall_impl; [|exact Hall]; simpl; intros a (Ha & Hi).
        split; [lia | exact Hi].
Qed.

(** A valid entry below the starting bound is either stored or every
    stored slot is still above it. *)
Lemma fill_freq_table_reaches table n freq x :
  In x (valid_entries table) -> x < freq ->
  In x (fill_freq_table table n freq) \/
  Forall (fun y => x < y) (fill_freq_table table n freq).
Proof.
  intros Hin; revert freq; induction n as [|n IH]; intros freq Hlt; simpl.
  - right; constructor.
  - pose proof (find_next_max_upper table freq x Hin Hlt) as Hle.
    destruct (Z.eq_dec x (find_next_max table freq)) as [E | Hne].
    + left; left; symmetry; exact E.
    + destruct (IH (find_next_max table freq)) as [H | H]; [lia | |].
      * left; right; exact H.
      * right; constructor; [lia | exact H].
Qed.

Lemma strictly_descending_NoDup (l : list Z) : StronglySorted Z.gt l -> NoDup l.
Proof.
  induction 1 as [|a l Hs IH Hall]; constructor; [|exact IH].
  intros Hin; rewrite Forall_forall in Hall; specialize (Hall a Hin); lia.
Qed.

Lemma valid_entries_range table x :
  Forall u32 table -> In x (valid_entries table) -> 0 <= x < to_u32 (-1).
Proof.
  intros Hall Hin; unfold valid_entries in Hin.
  apply filter_In in Hin as [Hin Hv].
  rewrite Forall_forall in Hall; specialize (Hall x Hin).
  apply negb_true_iff, Z.eqb_neq in Hv.
  unfold u32, UINT_MAX in Hall; unfold CPUFREQ_ENTRY_INVALID in Hv.
  change (to_u32 (-1)) with 4294967295 in *; lia.
Qed.

Lemma in_repeat_zero (k : nat) (x : Z) : In x (repeat 0 k) -> x = 0.
Proof. intros H; apply repeat_spec in H; exact H. Qed.

(** The complete description of the stored ladder: the positive valid
    frequencies, each once, in strictly descending order, and then one zero
    slot for every valid entry that did not yield a new positive value. *)
Lemma ladder_of_shape table :
  Forall u32 table -> valid_entries table <> [] ->
  exists run k,
    ladder_of table = run ++ repeat 0 k /\
    StronglySorted Z.gt run /\
    (forall x, In x run <-> In x (valid_entries table) /\ x <> 0) /\
    (length run + k = length (valid_entries table))%nat.
Proof.
  intros Hu Hne; unfold ladder_of, build_freq_table.
  unfold cpufreq_table_count_valid_entries.
  assert (Hn : S (length (valid_entries table) - 1)
               = length (valid_entries table)).
  { destruct (valid_entries table); [congruence | simpl; lia]. }
  rewrite Hn; clear Hn.
  destruct (fill_freq_table_shape table (length (valid_entries table))
              (to_u32 (-1))) as (run & k & E & Hs & Hall).
  assert (Hlen : (length run + k = length (valid_entries table))%nat).
  { pose proof (fill_freq_table_length table (length (valid_entries table))
                  (to_u32 (-1))) as L.
    rewrite E, length_app, repeat_length in L; exact L. }
  exists run, k; repeat split; auto.
  - rewrite Forall_forall in Hall; apply Hall; assumption.
  - rewrite Forall_forall in Hall; apply Hall in H; lia.
  - intros (Hin & Hnz).
    pose proof (valid_entries_range table x Hu Hin) as Hr.
    destruct (fill_freq_table_reaches table (length (valid_entries table))
                (to_u32 (-1)) x Hin) as [H | H]; [lia | |]; rewrite E in H.
    + apply in_app_or in H as [H | H]; [exact H|].
      apply in_repeat_zero in H; contradiction.
    + destruct k as [|k].
      * simpl in H; rewrite app_nil_r in H.
        assert (Hincl : incl (valid_entries table) run).
        { apply NoDup_length_incl.
          - now apply strictly_descending_NoDup.
          - lia.
          - intros y Hy; rewrite Forall_forall in Hall; now apply Hall. }
        exact (Hincl x Hin).
      * rewrite Forall_forall in H.
        specialize (H 0); rewrite in_app_iff in H; simpl in H.
        assert (x < 0) by (apply H; right; now left); lia.
Qed.

Lemma strictly_descending_app_zero (run : list Z) :
  StronglySorted Z.gt run -> Forall (fun x => 0 < x) run ->
  StronglySorted Z.gt (run ++ [0]).
Proof.
  induction 1 as [|a l Hs IH Hall]; intros Hpos; simpl.
  - repeat constructor.
  - inversion Hpos as [|? ? Ha Hl]; subst.
    constructor; [now apply IH|].
    apply Forall_app; split; [exact Hall|].
    repeat constructor; lia.
Qed.

(** At most one trailing zero when the valid entries are pairwise
    distinct. *)
Lemma ladder_of_distinct_zero_slots table run k :
  NoDup (valid_entries table) ->
  StronglySorted Z.gt run ->
  (forall x, In x run <-> In x (valid_entries table) /\ x <> 0) ->
  (length run + k = length (valid_entries table))%nat ->
  (k <= 1)%nat.
Proof.
  intros Hnd Hs Hrun Hlen.
  assert (Hincl : incl (valid_entries table) (run ++ [0])).
  { intros x Hx; apply in_or_app.
    destruct (Z.eq_dec x 0) as [-> | Hnz]; [right; now left|].
    left; apply Hrun; now split. }
  apply NoDup_incl_length in Hincl; [|exact Hnd].
  rewrite length_app in Hincl; simpl in Hincl; lia.
Qed.

(** C3 (as the code has it): when the valid frequencies of the raw
    capability set are pairwise distinct, the ladder that [cpu_thermal_init]
    stores is strictly descending and duplicate-free, has one slot per valid
    frequency, and holds every valid frequency exactly once. *)
Theorem ladder_of_distinct_input table :
  Forall u32 table ->
  valid_entries table <> [] ->
  NoDup (valid_entries table) ->
  StronglySorted Z.gt (ladder_of table) /\
  NoDup (ladder_of table) /\
  length (ladder_of table) = length (distinct (valid_entries table)) /\
  Permutation (ladder_of table) (valid_entries table) /\
  (forall x, In x (valid_entries table) ->
             count_occ Z.eq_dec (ladder_of table) x = 1%nat).
Proof.
  intros Hu Hne Hnd.
  destruct (ladder_of_shape table Hu Hne) as (run & k & E & Hs & Hrun & Hlen).
  pose proof (ladder_of_distinct_zero_slots table run k Hnd Hs Hrun Hlen) as Hk.
  assert (Hpos : Forall (fun x => 0 < x) run).
  { apply Forall_forall; intros x Hx; apply Hrun in Hx as [Hx Hnz].
    pose proof (valid_entries_range table x Hu Hx); lia. }
  assert (Hsorted : StronglySorted Z.gt (ladder_of table)).
  { rewrite E; destruct k as [|[|k]]; [| |lia]; simpl.
    - now rewrite app_nil_r.
    - now apply strictly_descending_app_zero. }
  assert (HndT : NoDup (ladder_of table))
    by now apply strictly_descending_NoDup.
  assert (HlenT : length (ladder_of table) = length (valid_entries table)).
  { rewrite E, length_app, repeat_length; exact Hlen. }
  assert (Hperm : Permutation (ladder_of table) (valid_entries table)).
  { symmetry; apply NoDup_Permutation_bis; [exact Hnd | lia |].
    intros x Hx; rewrite E; apply in_or_app.
    destruct (Z.eq_dec x 0) as [-> | Hnz]; [|left; apply Hrun; now split].
    right; destruct k as [|k]; [|now left].
    exfalso; simpl in E; rewrite app_nil_r in E.
    assert (Hincl : incl (valid_entries table) run).
    { apply NoDup_length_incl; [now apply strictly_descending_NoDup | lia |].
      intros y Hy; now apply Hrun. }
    apply Hincl, Hrun in Hx; tauto. }
  repeat split; auto.
  - unfold distinct; rewrite nodup_fixed_point; [exact HlenT | exact Hnd].
  - intros x Hx.
    apply (proj1 (NoDup_count_occ' Z.eq_dec (ladder_of table)) HndT).
    eapply Permutation_in; [symmetry; exact Hperm | exact Hx].
Qed.

Lemma ladder_of_distinct_input_witness :
  StronglySorted Z.gt (ladder_of [1000; 4294967295; 2000; 1500]) /\
  NoDup (ladder_of [1000; 4294967295; 2000; 1500]) /\
  length (ladder_of [1000; 4294967295; 2000; 1500]) =
    length (distinct (valid_entries [1000; 4294967295; 2000; 1500])) /\
  Permutation (ladder_of [1000; 4294967295; 2000; 1500])
              (valid_entries [1000; 4294967295; 2000; 1500]) /\
  (forall x, In x (valid_entries [1000; 4294967295; 2000; 1500]) ->
     count_occ Z.eq_dec (ladder_of [1000; 4294967295; 2000; 1500]) x = 1%nat).
Proof.
  apply (ladder_of_distinct_input [1000; 4294967295; 2000; 1500]).
  - repeat constructor; unfold UINT_MAX; simpl; lia.
  - discriminate.
  - repeat constructor; simpl; intuition lia.
Defined.

(** C3 fails as stated: a capability set with repeated frequencies gets one
    slot per valid entry, and the slots left over hold 0. *)
Lemma ladder_of_duplicates_counterexample :
  Forall u32 [1500; 2000; 1500; 2000; 1000] /\
  valid_entries [1500; 2000; 1500; 2000; 1000] <> [] /\
  ladder_of [1500; 2000; 1500; 2000; 1000] = [2000; 1500; 1000; 0; 0] /\
  ~ StronglySorted Z.gt (ladder_of [1500; 2000; 1500; 2000; 1000]) /\
  ~ NoDup (ladder_of [1500; 2000; 1500; 2000; 1000]) /\
  length (ladder_of [1500; 2000; 1500; 2000; 1000]) <>
    length (distinct (valid_entries [1500; 2000; 1500; 2000; 1000])).
Proof.
  split; [repeat constructor; unfold UINT_MAX; simpl; lia|].
  split; [discriminate|].
  split; [reflexivity|].
  change (ladder_of [1500; 2000; 1500; 2000; 1000])
    with [2000; 1500; 1000; 0; 0].
  repeat split.
  - intros H.
    do 3 (apply StronglySorted_inv in H as [H _]).
    apply StronglySorted_inv in H as [_ H].
    inversion H; subst; lia.
  - intros H.
    do 3 (apply NoDup_cons_iff in H as [_ H]).
    apply NoDup_cons_iff in H as [H _]; apply H; now left.
  - vm_compute; discriminate.
Qed.

(** ** Level resolver *)

Arguments to_u32 : simpl never.

Lemma strictly_descending_nth (l : list Z) (i j : nat) (a b : Z) :
  StronglySorted Z.gt l -> (i < j)%nat ->
  nth_error l i = Some a -> nth_error l j = Some b -> b < a.
Proof.
  intros Hs; revert i j; induction Hs as [|x l Hs IH Hall]; intros i j Hij Hi Hj.
  - destruct i; discriminate.
  - destruct j as [|j]; [lia|]; simpl in Hj.
    destruct i as [|i]; simpl in Hi.
    + injection Hi as <-.
      apply nth_error_In in Hj.
      rewrite Forall_forall in Hall; specialize (Hall b Hj); lia.
    + apply (IH i j); auto; lia.
Qed.

Section Scan.

Variable cdev : cpufreq_device.
Variable max_freq : Z.

Lemma scan_levels_defined (fuel level : nat) :
  (level + fuel <= length (freq_table cdev))%nat ->
  exists r, scan_levels cdev max_freq fuel level = Some r.
Proof.
  revert level; induction fuel as [|fuel IH]; intros level Hlen; simpl.
  - now exists NoMatch.
  - destruct (nth_error (freq_table cdev) level) as [f|] eqn:E.
    + destruct (max_freq >=? f); [now exists (Matched level)|].
      apply IH; lia.
    + apply nth_error_None in E; lia.
Qed.

Lemma scan_levels_matched (fuel level j : nat) :
  scan_levels cdev max_freq fuel level = Some (Matched j) ->
  (level <= j < level + fuel)%nat /\
  (exists fj, nth_error (freq_table cdev) j = Some fj /\ fj <= max_freq) /\
  (forall i fi, (level <= i < j)%nat ->
                nth_error (freq_table cdev) i = Some fi -> max_freq < fi).
Proof.
  revert level; induction fuel as [|fuel IH]; intros level; simpl.
  - discriminate.
  - destruct (nth_error (freq_table cdev) level) as [f|] eqn:E;
      [|discriminate].
    destruct (max_freq >=? f) eqn:Hge.
    + intros [= <-]; apply Z.geb_le in Hge.
      split; [lia|]; split; [now exists f|]; intros; lia.
    + intros H; apply IH in H as (Hj & Hfj & Hbefore).
      split; [lia|]; split; [exact Hfj|].
      intros i fi Hi Hnth.
      destruct (Nat.eq_dec i level) as [-> | Hne].
      * rewrite E in Hnth; injection Hnth as <-.
        rewrite Z.geb_leb in Hge; apply Z.leb_gt in Hge; exact Hge.
      * apply (Hbefore i); auto; lia.
Qed.

Lemma scan_levels_nomatch (fuel level : nat) :
  scan_levels cdev max_freq fuel level = Some NoMatch ->
  forall i fi, (level <= i < level + fuel)%nat ->
               nth_error (freq_table cdev) i = Some fi -> max_freq < fi.
Proof.
  revert level; induction fuel as [|fuel IH]; intros level; simpl.
  - intros _ i fi Hi; lia.
  - destruct (nth_error (freq_table cdev) level) as [f|] eqn:E;
      [|discriminate].
    destruct (max_freq >=? f) eqn:Hge; [discriminate|].
    intros H i fi Hi Hnth.
    destruct (Nat.eq_dec i level) as [-> | Hne].
    + rewrite E in Hnth; injection Hnth as <-.
      rewrite Z.geb_leb in Hge; apply Z.leb_gt in Hge; exact Hge.
    + apply (IH (S level) H i); auto; lia.
Qed.

Lemma scan_levels_first (fuel level j : nat) (fj : Z) :
  (level <= j < level + fuel)%nat ->
  nth_error (freq_table cdev) j = Some fj -> fj <= max_freq ->
  (forall i fi, (level <= i < j)%nat ->
                nth_error (freq_table cdev) i = Some fi -> max_freq < fi) ->
  scan_levels cdev max_freq fuel level = Some (Matched j).
Proof.
  revert level; induction fuel as [|fuel IH];
    intros level Hj Hnth Hle Hbefore; simpl; [lia|].
  destruct (Nat.eq_dec level j) as [-> | Hne].
  - rewrite Hnth.
    apply Z.geb_le in Hle; rewrite Hle; reflexivity.
  - destruct (nth_error (freq_table cdev) level) as [f|] eqn:E.
    + pose proof (Hbefore level f ltac:(lia) E) as Hlt.
      destruct (max_freq >=? f) eqn:Hge; [apply Z.geb_le in Hge; lia|].
      apply IH; auto; [lia|].
      intros i fi Hi; apply Hbefore; lia.
    + apply nth_error_None in E.
      assert (nth_error (freq_table cdev) j <> None) by congruence.
      apply nth_error_Some in H; lia.
Qed.

End Scan.

Lemma resolve_defined cdev max_freq :
  wf_device cdev -> exists r, resolve cdev max_freq = Some r.
Proof.
  intros [_ Hlen]; apply scan_levels_defined; simpl; lia.
Qed.

Lemma resolve_first cdev max_freq j fj :
  (j <= max_level cdev)%nat ->
  nth_error (freq_table cdev) j = Some fj -> fj <= max_freq ->
  (forall i fi, (i < j)%nat ->
                nth_error (freq_table cdev) i = Some fi -> max_freq < fi) ->
  resolve cdev max_freq = Some (Matched j).
Proof.
  intros Hj Hnth Hle Hbefore.
  apply scan_levels_first with (fj := fj); auto; [lia|].
  intros i fi Hi; apply Hbefore; lia.
Qed.

Lemma resolve_all_above cdev max_freq :
  wf_device cdev ->
  (forall fi, In fi (freq_table cdev) -> max_freq < fi) ->
  resolve cdev max_freq = Some NoMatch.
Proof.
  intros Hwf Hall.
  destruct (resolve_defined cdev max_freq Hwf) as [[j|] E]; [|exact E].
  apply scan_levels_matched in E as (_ & (fj & Hnth & Hle) & _).
  apply nth_error_In, Hall in Hnth; lia.
Qed.

(** ** The walk over the table *)

Section Walk.

Variable P : platform.

Lemma cpu_limits_walk_unknown l h cpu max_freq :
  Forall (fun cdev => to_u32 (id cdev) <> cpu) l ->
  cpu_limits_walk P l h cpu max_freq = Some (l, h).
Proof.
  induction 1 as [|cdev l Hne Hl IH]; simpl; [reflexivity|].
  apply Z.eqb_neq in Hne; rewrite Hne, IH; reflexivity.
Qed.

(** The walk stops at the first entry whose id is [cpu] and works on that
    entry alone. *)
Lemma cpu_limits_walk_focus pre cdev post h cpu max_freq :
  Forall (fun d => to_u32 (id d) <> cpu) pre ->
  to_u32 (id cdev) = cpu ->
  cpu_limits_walk P (pre ++ cdev :: post) h cpu max_freq =
  (r <- resolve cdev max_freq ;;
   match r with
   | NoMatch => Some (pre ++ cdev :: post, h)
   | Matched level =>
       '(cdev', h', _) <- cpufreq_set_level P h cdev level ;;
       Some (pre ++ cdev' :: post, h')
   end).
Proof.
  intros Hpre Hid; induction Hpre as [|d pre Hne Hpre IH]; simpl.
  - apply Z.eqb_eq in Hid; rewrite Hid.
    destruct (resolve cdev max_freq) as [[level|]|]; try reflexivity.
  - apply Z.eqb_neq in Hne; rewrite Hne, IH.
    destruct (resolve cdev max_freq) as [[level|]|]; try reflexivity.
    destruct (cpufreq_set_level P h cdev level) as [[[cdev' h'] ret]|];
      reflexivity.
Qed.

Lemma cpufreq_set_level_same h cdev state :
  (state <= max_level cdev)%nat -> cpufreq_state cdev = state ->
  cpufreq_set_level P h cdev state = Some (cdev, h, 0).
Proof.
  intros Hle Heq; unfold cpufreq_set_level.
  apply Nat.ltb_ge in Hle; rewrite Hle.
  apply Nat.eqb_eq in Heq; rewrite Heq; reflexivity.
Qed.

Lemma cpufreq_set_level_change h cdev state f :
  (state <= max_level cdev)%nat -> cpufreq_state cdev <> state ->
  nth_error (freq_table cdev) state = Some f ->
  cpufreq_set_level P h cdev state =
  Some (set_cpufreq_state cdev state,
        h ++ [FreqQosUpdate (qos_req cdev) f],
        freq_qos_ret P h (FreqQosUpdate (qos_req cdev) f)).
Proof.
  intros Hle Hne Hnth; unfold cpufreq_set_level.
  apply Nat.ltb_ge in Hle; rewrite Hle.
  apply Nat.eqb_neq in Hne; rewrite Hne, Hnth; reflexivity.
Qed.

(** Whatever level is asked for, the entry keeps its ladder and its
    invariant. *)
Lemma cpufreq_set_level_keeps h cdev state cdev' h' ret :
  cpufreq_set_level P h cdev state = Some (cdev', h', ret) ->
  id cdev' = id cdev /\ max_level cdev' = max_level cdev /\
  freq_table cdev' = freq_table cdev /\ qos_req cdev' = qos_req cdev /\
  policy cdev' = policy cdev /\
  (wf_device cdev -> wf_device cdev').
Proof.
  unfold cpufreq_set_level.
  destruct (max_level cdev <? state)%nat eqn:Hlt.
  { intros [= <- <- <-]; repeat (split; [reflexivity|]); auto. }
  destruct (cpufreq_state cdev =? state)%nat.
  { intros [= <- <- <-]; repeat (split; [reflexivity|]); auto. }
  destruct (nth_error (freq_table cdev) state); [|discriminate].
  intros [= <- <- <-]; simpl; repeat (split; [reflexivity|]).
  intros [_ Hlen]; split; simpl; [|exact Hlen].
  apply Nat.ltb_ge in Hlt; exact Hlt.
Qed.

End Walk.

Lemma cpu_limits_set_level_no_match P k pre cdev post cpu max_freq :
  cpufreq_dev_list k = pre ++ cdev :: post ->
  Forall (fun d => to_u32 (id d) <> cpu) pre ->
  to_u32 (id cdev) = cpu ->
  resolve cdev max_freq = Some NoMatch ->
  cpu_limits_set_level P k cpu max_freq = Some k.
Proof.
  intros Hl Hpre Hid Hres; unfold cpu_limits_set_level.
  rewrite Hl, (cpu_limits_walk_focus P pre cdev post _ cpu max_freq Hpre Hid).
  rewrite Hres; destruct k as [l h]; simpl in *; subst l; reflexivity.
Qed.

Lemma wf_device_slot cdev i :
  wf_device cdev -> (i <= max_level cdev)%nat ->
  exists f, nth_error (freq_table cdev) i = Some f.
Proof.
  intros [_ Hlen] Hi.
  destruct (nth_error (freq_table cdev) i) as [f|] eqn:E; [now exists f|].
  apply nth_error_None in E; lia.
Qed.

Lemma wf_device_index cdev i f :
  wf_device cdev -> nth_error (freq_table cdev) i = Some f ->
  (i <= max_level cdev)%nat.
Proof.
  intros [_ Hlen] Hnth.
  assert (H : nth_error (freq_table cdev) i <> None) by congruence.
  apply nth_error_Some in H; lia.
Qed.

(** C2: on a strictly descending ladder the scan of [cpu_limits_set_level]
    selects the first index whose frequency is at most the requested
    ceiling: level 0 for a request at or above the highest frequency, the
    lower of two neighbouring levels for a request between them, and no
    index at all for a request below the lowest level, in which case the
    call changes nothing.  On the ladder 2000, 1500, 1000 a request of 1800
    gives level 1, 2500 gives level 0 and 500 leaves the state as it is. *)
Theorem resolve_strictly_descending cdev max_freq :
  wf_device cdev ->
  StronglySorted Z.gt (freq_table cdev) ->
  (exists r,
      resolve cdev max_freq = Some r /\
      match r with
      | Matched j =>
          (j <= max_level cdev)%nat /\
          (exists fj, nth_error (freq_table cdev) j = Some fj /\
                      fj <= max_freq) /\
          (forall i fi, (i < j)%nat ->
                        nth_error (freq_table cdev) i = Some fi ->
                        max_freq < fi)
      | NoMatch => forall fi, In fi (freq_table cdev) -> max_freq < fi
      end) /\
  (forall f0, nth_error (freq_table cdev) 0 = Some f0 -> f0 <= max_freq ->
              resolve cdev max_freq = Some (Matched 0)) /\
  (forall i a b,
      nth_error (freq_table cdev) i = Some a ->
      nth_error (freq_table cdev) (S i) = Some b ->
      b <= max_freq < a ->
      resolve cdev max_freq = Some (Matched (S i))) /\
  (forall lo,
      nth_error (freq_table cdev) (max_level cdev) = Some lo ->
      max_freq < lo ->
      resolve cdev max_freq = Some NoMatch /\
      forall P k pre post cpu,
        cpufreq_dev_list k = pre ++ cdev :: post ->
        Forall (fun d => to_u32 (id d) <> cpu) pre ->
        to_u32 (id cdev) = cpu ->
        cpu_limits_set_level P k cpu max_freq = Some k) /\
  (resolve cdev0 1800 = Some (Matched 1) /\
   resolve cdev0 2500 = Some (Matched 0) /\
   resolve cdev0 500 = Some NoMatch /\
   cpu_limits_set_level platform_ok kernel0 0 500 = Some kernel0).
Proof.
  intros Hwf Hs; split; [|split; [|split; [|split]]].
  - destruct (resolve_defined cdev max_freq Hwf) as [r E].
    exists r; split; [exact E|]; destruct r as [j|].
    + apply scan_levels_matched in E as (Hj & Hfj & Hbefore).
      split; [lia|]; split; [exact Hfj|].
      intros i fi Hi; apply Hbefore; lia.
    + intros fi Hin; apply In_nth_error in Hin as [i Hi].
      pose proof (wf_device_index cdev i fi Hwf Hi).
      apply (scan_levels_nomatch _ _ _ _ E i fi); [lia | exact Hi].
  - intros f0 H0 Hle.
    apply resolve_first with (fj := f0); auto; [lia|].
    intros i fi Hi; lia.
  - intros i a b Ha Hb Hab.
    apply resolve_first with (fj := b); auto; [|lia|].
    + exact (wf_device_index cdev (S i) b Hwf Hb).
    + intros i' fi Hi' Hnth.
      destruct (Nat.eq_dec i' i) as [-> | Hne].
      * rewrite Ha in Hnth; injection Hnth as <-; lia.
      * pose proof (strictly_descending_nth _ i' i fi a Hs ltac:(lia) Hnth Ha).
        lia.
  - intros lo Hlo Hlt.
    assert (Hres : resolve cdev max_freq = Some NoMatch).
    { apply resolve_all_above; [exact Hwf|].
      intros fi Hin; apply In_nth_error in Hin as [i Hi].
      pose proof (wf_device_index cdev i fi Hwf Hi) as Hle.
      destruct (Nat.eq_dec i (max_level cdev)) as [-> | Hne].
      - rewrite Hlo in Hi; injection Hi as <-; exact Hlt.
      - pose proof (strictly_descending_nth _ i (max_level cdev) fi lo Hs
                      ltac:(lia) Hi Hlo); lia. }
    split; [exact Hres|].
    intros P k pre post cpu Hl Hpre Hid.
    now apply cpu_limits_set_level_no_match with pre cdev post.
  - repeat split; reflexivity.
Qed.

Lemma resolve_strictly_descending_witness :
  wf_device cdev0 /\ StronglySorted Z.gt (freq_table cdev0) /\
  resolve cdev0 1200 = Some (Matched 2).
Proof.
  assert (Hwf : wf_device cdev0) by (split; simpl; [lia | reflexivity]).
  assert (Hs : StronglySorted Z.gt (freq_table cdev0)).
  { simpl; unfold ladder_2000; repeat constructor; lia. }
  split; [exact Hwf|]; split; [exact Hs|].
  destruct (resolve_strictly_descending cdev0 1200 Hwf Hs)
    as (_ & _ & Hbetween & _).
  apply (Hbetween 1%nat 1500 1000); [reflexivity | reflexivity | lia].
Defined.

(** C9: on a strictly descending ladder, resolving the frequency stored at
    a valid index gives back that index. *)
Theorem resolve_own_frequency cdev i fi :
  wf_device cdev ->
  StronglySorted Z.gt (freq_table cdev) ->
  (i <= max_level cdev)%nat ->
  nth_error (freq_table cdev) i = Some fi ->
  resolve cdev fi = Some (Matched i).
Proof.
  intros Hwf Hs Hi Hnth.
  apply resolve_first with (fj := fi); auto; [lia|].
  intros i' f' Hlt Hnth'.
  exact (strictly_descending_nth _ i' i f' fi Hs Hlt Hnth' Hnth).
Qed.

Lemma resolve_own_frequency_witness :
  nth_error (freq_table cdev0) 1 = Some 1500 /\
  resolve cdev0 1500 = Some (Matched 1).
Proof.
  split; [reflexivity|].
  apply (resolve_own_frequency cdev0 1 1500).
  - split; simpl; [lia | reflexivity].
  - simpl; unfold ladder_2000; repeat constructor; lia.
  - simpl; lia.
  - reflexivity.
Defined.

(** ** Capping *)

Lemma scan_levels_set_state cdev state max_freq fuel level :
  scan_levels (set_cpufreq_state cdev state) max_freq fuel level =
  scan_levels cdev max_freq fuel level.
Proof.
  revert level; induction fuel as [|fuel IH]; intros level; simpl;
    [reflexivity|].
  destruct (nth_error (freq_table cdev) level) as [f|]; [|reflexivity].
  rewrite IH; reflexivity.
Qed.

Lemma resolve_set_state cdev state max_freq :
  resolve (set_cpufreq_state cdev state) max_freq = resolve cdev max_freq.
Proof. unfold resolve; rewrite scan_levels_set_state; reflexivity. Qed.

Lemma updates_snoc_update h req value :
  updates (h ++ [FreqQosUpdate req value]) = S (updates h).
Proof.
  unfold updates; rewrite filter_app, length_app; simpl; lia.
Qed.

(** C1 (as the code has it): when the requested level differs from the
    current one, [cpufreq_set_level] records the requested level first and
    then issues the ceiling update.  If the backend refuses the update, its
    negative code is what [cpufreq_set_level] returns, but the recorded level
    is not rolled back: it stays at the requested level.  The callers drop
    the code: [cpu_limits_store] still returns the input length. *)
Theorem cpufreq_set_level_backend_failure P h cdev state f :
  (state <= max_level cdev)%nat ->
  cpufreq_state cdev <> state ->
  nth_error (freq_table cdev) state = Some f ->
  freq_qos_ret P h (FreqQosUpdate (qos_req cdev) f) < 0 ->
  exists cdev' ret,
    cpufreq_set_level P h cdev state =
      Some (cdev', h ++ [FreqQosUpdate (qos_req cdev) f], ret) /\
    ret = freq_qos_ret P h (FreqQosUpdate (qos_req cdev) f) /\
    ret < 0 /\
    cpufreq_state cdev' = state /\
    cpufreq_state cdev' <> cpufreq_state cdev /\
    freq_table cdev' = freq_table cdev /\
    max_level cdev' = max_level cdev /\
    forall pre post cpu max_freq len,
      Forall (fun d => to_u32 (id d) <> cpu) pre ->
      to_u32 (id cdev) = cpu ->
      resolve cdev max_freq = Some (Matched state) ->
      cpu_limits_store P {| cpufreq_dev_list := pre ++ cdev :: post;
                            history := h |} (Some (cpu, max_freq)) len =
      Some ({| cpufreq_dev_list := pre ++ cdev' :: post;
               history := h ++ [FreqQosUpdate (qos_req cdev) f] |}, len).
Proof.
  intros Hle Hne Hnth Hfail.
  exists (set_cpufreq_state cdev state),
         (freq_qos_ret P h (FreqQosUpdate (qos_req cdev) f)).
  pose proof (cpufreq_set_level_change P h cdev state f Hle Hne Hnth) as E.
  repeat split; auto.
  intros pre post cpu max_freq len Hpre Hid Hres.
  unfold cpu_limits_store, cpu_limits_set_level; simpl.
  rewrite (cpu_limits_walk_focus P pre cdev post h cpu max_freq Hpre Hid).
  rewrite Hres, E; reflexivity.
Qed.

Lemma cpufreq_set_level_backend_failure_witness :
  exists cdev' ret,
    cpufreq_set_level platform_update_fails [] cdev0 1 =
      Some (cdev', [FreqQosUpdate 0 1500], ret) /\
    ret < 0 /\ cpufreq_state cdev' = 1%nat.
Proof.
  destruct (cpufreq_set_level_backend_failure
              platform_update_fails [] cdev0 1 1500)
    as (cdev' & ret & E & _ & Hneg & Hstate & _).
  - simpl; lia.
  - simpl; lia.
  - reflexivity.
  - simpl; unfold Errno.EINVAL; lia.
  - exists cdev', ret; repeat split; assumption.
Defined.

(** C1 fails as stated: with a backend that refuses the update, the entry
    that was at level 0 is left at level 1, and the sysfs store that
    triggered the update reports success. *)
Lemma cpufreq_set_level_no_rollback_counterexample :
  cpufreq_state cdev0 = 0%nat /\
  cpufreq_set_level platform_update_fails [] cdev0 1 =
    Some (set_cpufreq_state cdev0 1, [FreqQosUpdate 0 1500],
          - Errno.EINVAL) /\
  - Errno.EINVAL < 0 /\
  cpufreq_state (set_cpufreq_state cdev0 1) <> cpufreq_state cdev0 /\
  cpu_limits_store platform_update_fails kernel0 (Some (0, 1800)) 12 =
    Some ({| cpufreq_dev_list := [set_cpufreq_state cdev0 1];
             history := [FreqQosUpdate 0 1500] |}, 12).
Proof.
  repeat split; try reflexivity; simpl; discriminate.
Qed.

(** C4: a capping call that changes the level of the entry issues exactly
    one backend ceiling update, whatever the backend answers; a call whose
    resolved level is the current one, or that matches no level, issues
    none.  The same call repeated at once finds the level already recorded
    and changes nothing, so the two calls together issue the single update of
    the first. *)
Theorem cap_backend_updates P k pre cdev post cpu max_freq :
  cpufreq_dev_list k = pre ++ cdev :: post ->
  Forall (fun d => to_u32 (id d) <> cpu) pre ->
  to_u32 (id cdev) = cpu ->
  wf_device cdev ->
  exists r k1,
    resolve cdev max_freq = Some r /\
    cpu_limits_set_level P k cpu max_freq = Some k1 /\
    cpu_limits_set_level P k1 cpu max_freq = Some k1 /\
    match r with
    | Matched level =>
        if (cpufreq_state cdev =? level)%nat
        then k1 = k
        else exists f,
            nth_error (freq_table cdev) level = Some f /\
            cpufreq_dev_list k1 = pre ++ set_cpufreq_state cdev level :: post /\
            history k1 = history k ++ [FreqQosUpdate (qos_req cdev) f] /\
            updates (history k1) = S (updates (history k))
    | NoMatch => k1 = k
    end.
Proof.
  intros Hl Hpre Hid Hwf.
  destruct (resolve_defined cdev max_freq Hwf) as [r Hres].
  exists r; destruct r as [level|].
  - pose proof Hres as Hm.
    apply scan_levels_matched in Hm as (Hlevel & _ & _).
    assert (Hle : (level <= max_level cdev)%nat) by lia.
    destruct (cpufreq_state cdev =? level)%nat eqn:Hcur.
    + apply Nat.eqb_eq in Hcur.
      assert (E : cpu_limits_set_level P k cpu max_freq = Some k).
      { unfold cpu_limits_set_level.
        rewrite Hl, (cpu_limits_walk_focus P pre cdev post _ _ _ Hpre Hid).
        rewrite Hres, (cpufreq_set_level_same P _ cdev level Hle Hcur).
        destruct k as [l h]; simpl in *; subst l; reflexivity. }
      exists k; repeat split; auto.
    + apply Nat.eqb_neq in Hcur.
      destruct (wf_device_slot cdev level Hwf Hle) as [f Hf].
      exists {| cpufreq_dev_list := pre ++ set_cpufreq_state cdev level :: post;
                history := history k ++ [FreqQosUpdate (qos_req cdev) f] |}.
      split; [exact Hres|]; split; [|split].
      * unfold cpu_limits_set_level.
        rewrite Hl, (cpu_limits_walk_focus P pre cdev post _ _ _ Hpre Hid).
        rewrite Hres, (cpufreq_set_level_change P _ cdev level f Hle Hcur Hf).
        reflexivity.
      * unfold cpu_limits_set_level; simpl.
        rewrite (cpu_limits_walk_focus P pre (set_cpufreq_state cdev level)
                   post _ cpu max_freq Hpre Hid).
        rewrite resolve_set_state, Hres.
        rewrite (cpufreq_set_level_same P _ (set_cpufreq_state cdev level)
                   level Hle eq_refl).
        reflexivity.
      * exists f; repeat split; auto.
        simpl; apply updates_snoc_update.
  - assert (E : cpu_limits_set_level P k cpu max_freq = Some k)
      by now apply cpu_limits_set_level_no_match with pre cdev post.
    exists k; repeat split; auto.
Qed.

Lemma cap_backend_updates_witness :
  exists k1,
    cpu_limits_set_level platform_ok kernel0 0 1800 = Some k1 /\
    cpu_limits_set_level platform_ok k1 0 1800 = Some k1 /\
    updates (history k1) = 1%nat.
Proof.
  destruct (cap_backend_updates platform_ok kernel0 [] cdev0 [] 0 1800)
    as (r & k1 & Hres & E1 & E2 & Hcase).
  - reflexivity.
  - constructor.
  - reflexivity.
  - split; simpl; [lia | reflexivity].
  - exists k1; split; [exact E1|]; split; [exact E2|].
    change (resolve cdev0 1800) with (Some (Matched 1)) in Hres.
    injection Hres as <-; simpl in Hcase.
    destruct Hcase as (f & _ & _ & _ & Hupd); exact Hupd.
Defined.

(** C5 (as the code has it): a capping call for a processor id that is not
    in the table changes nothing, issues no backend call and reports no
    error: [cpu_limits_set_level] returns nothing and [cpu_limits_store]
    returns the length of its input. *)
Theorem cap_unknown_processor P k cpu max_freq len :
  Forall (fun cdev => to_u32 (id cdev) <> cpu) (cpufreq_dev_list k) ->
  cpu_limits_set_level P k cpu max_freq = Some k /\
  cpu_limits_store P k (Some (cpu, max_freq)) len = Some (k, len).
Proof.
  intros Hall.
  assert (E : cpu_limits_set_level P k cpu max_freq = Some k).
  { unfold cpu_limits_set_level.
    rewrite (cpu_limits_walk_unknown P _ _ cpu max_freq Hall).
    destruct k; reflexivity. }
  split; [exact E|].
  unfold cpu_limits_store; rewrite E; reflexivity.
Qed.

Lemma cap_unknown_processor_witness :
  cpu_limits_set_level platform_ok kernel0 7 1000 = Some kernel0 /\
  cpu_limits_store platform_ok kernel0 (Some (7, 1000)) 10 =
    Some (kernel0, 10).
Proof.
  apply (cap_unknown_processor platform_ok kernel0 7 1000 10).
  repeat constructor; simpl; discriminate.
Defined.

(** C5 fails as stated: processor 7 is not in the table, and the store for
    it returns its length, 10, which is not an error value. *)
Lemma cap_unknown_processor_counterexample :
  Forall (fun cdev => to_u32 (id cdev) <> 7) (cpufreq_dev_list kernel0) /\
  cpu_limits_store platform_ok kernel0 (Some (7, 1000)) 10 =
    Some (kernel0, 10) /\
  ~ (10 < 0).
Proof.
  split; [repeat constructor; simpl; discriminate|].
  split; [reflexivity | lia].
Qed.

(** ** Initialisation *)

Section Init.

Variable P : platform.

Lemma cpu_thermal_init_body_fails k cpu :
  init_fails_at P k cpu ->
  exists k' code,
    cpu_thermal_init_body P k cpu = Some (k', Return code) /\
    code < 0 /\
    cpufreq_dev_list k' = cpufreq_dev_list k /\
    (history k' = history k \/
     exists f0, history k' = history k ++ [FreqQosAdd cpu f0]).
Proof.
  unfold init_fails_at, cpu_thermal_init_body.
  destruct (cpufreq_cpu_get P cpu) as [pol|].
  2:{ intros _; exists k, (- Errno.ESRCH); repeat split; auto. }
  destruct (Nat.eqb_spec
              (cpufreq_table_count_valid_entries (policy_freq_table pol)) 0)
    as [Hz | Hnz].
  { intros _; exists k, (- Errno.ENODEV); repeat split; auto. }
  destruct (kzalloc P cpu).
  2:{ intros _; exists k, (- Errno.ENOMEM); repeat split; auto. }
  destruct (kmalloc_array P cpu).
  2:{ intros _; exists k, (- Errno.ENOMEM); repeat split; auto. }
  intros [H | [H | [H | H]]]; try congruence.
  unfold build_freq_table in *; simpl in *.
  apply Z.ltb_lt in H; rewrite H.
  eexists; eexists; split; [reflexivity|].
  apply Z.ltb_lt in H; repeat split; auto.
  right; eexists; reflexivity.
Qed.

Lemma cpu_thermal_init_loop_app pre rest k ret0 k1 ret1 :
  cpu_thermal_init_loop P pre k ret0 = Some (k1, Next ret1) ->
  cpu_thermal_init_loop P (pre ++ rest) k ret0 =
  cpu_thermal_init_loop P rest k1 ret1.
Proof.
  revert k ret0; induction pre as [|c pre IH]; intros k ret0; simpl.
  - intros [= <- <-]; reflexivity.
  - destruct (cpu_thermal_init_body P k c) as [[k' [ret|code]]|];
      try discriminate.
    apply IH.
Qed.

End Init.

(** C6 (as the code has it): when the iteration for a processor fails (no
    policy, no valid entry, a failed allocation or a refused registration)
    after the processors before it were set up, [cpu_thermal_init] stops
    there with a negative code: the table holds the entries made so far and
    nothing is done for the processors that follow.
    [mi_thermal_interface_init] drops that code and returns 0. *)
Theorem init_failure_aborts_and_is_dropped P k ret0 pre cpu post k1 ret1 :
  possible_cpus P = pre ++ cpu :: post ->
  cpu_thermal_init_loop P pre k ret0 = Some (k1, Next ret1) ->
  init_fails_at P k1 cpu ->
  exists k2 code,
    cpu_thermal_init P k ret0 = Some (k2, code) /\
    code < 0 /\
    cpufreq_dev_list k2 = cpufreq_dev_list k1 /\
    (history k2 = history k1 \/
     exists f0, history k2 = history k1 ++ [FreqQosAdd cpu f0]) /\
    mi_thermal_interface_init P k ret0 = Some (k2, 0).
Proof.
  intros Hcpus Hpre Hfail.
  destruct (cpu_thermal_init_body_fails P k1 cpu Hfail)
    as (k2 & code & Hbody & Hneg & Hlist & Hhist).
  assert (E : cpu_thermal_init P k ret0 = Some (k2, code)).
  { unfold cpu_thermal_init.
    rewrite Hcpus, (cpu_thermal_init_loop_app P pre _ k ret0 k1 ret1 Hpre).
    simpl; rewrite Hbody; reflexivity. }
  exists k2, code; repeat split; auto.
  unfold mi_thermal_interface_init; rewrite E; reflexivity.
Qed.

Lemma init_failure_aborts_and_is_dropped_witness :
  exists k2 code,
    cpu_thermal_init platform_no_policy boot 0 = Some (k2, code) /\
    code < 0 /\
    length (cpufreq_dev_list k2) = 1%nat /\
    mi_thermal_interface_init platform_no_policy boot 0 = Some (k2, 0).
Proof.
  destruct (init_failure_aborts_and_is_dropped platform_no_policy boot 0
              [0] 1 [2]
              {| cpufreq_dev_list :=
                   [{| id := 0; cpufreq_state := 0; max_level := 2;
                       freq_table := ladder_2000; policy := policy0;
                       qos_req := 0 |}];
                 history :=
                   [FreqQosAdd 0 2000;
                    ListAdd {| id := 0; cpufreq_state := 0; max_level := 2;
                               freq_table := ladder_2000; policy := policy0;
                               qos_req := 0 |}] |} 1)
    as (k2 & code & E & Hneg & Hlist & _ & Hinit).
  - reflexivity.
  - reflexivity.
  - exact I.
  - exists k2, code; repeat split; auto.
    rewrite Hlist; reflexivity.
Defined.

(** C6 fails as stated: processor 1 has no cpufreq policy,
    [cpu_thermal_init] returns [-ESRCH] with only processor 0 in the table,
    and [mi_thermal_interface_init] returns 0 to the module loader. *)
Lemma init_error_swallowed_counterexample :
  exists k2,
    cpufreq_cpu_get platform_no_policy 1 = None /\
    cpu_thermal_init platform_no_policy boot 0 = Some (k2, - Errno.ESRCH) /\
    map qos_req (cpufreq_dev_list k2) = [0] /\
    mi_thermal_interface_init platform_no_policy boot 0 = Some (k2, 0) /\
    ~ (0 < 0).
Proof.
  eexists; split; [reflexivity|].
  split; [reflexivity|].
  split; [reflexivity|].
  split; [reflexivity | lia].
Qed.

(** ** Teardown *)

Lemma destory_walk_spec l h :
  destory_walk l h =
  {| cpufreq_dev_list := []; history := h ++ destory_events l |}.
Proof.
  revert h; induction l as [|priv tmp IH]; intros h; simpl.
  - rewrite app_nil_r; reflexivity.
  - rewrite IH, <- app_assoc; reflexivity.
Qed.

Lemma destory_events_cover l cdev :
  In cdev l ->
  In (FreqQosRemove (qos_req cdev)) (destory_events l) /\
  In (ListDel cdev) (destory_events l).
Proof.
  induction l as [|priv tmp IH]; intros Hin; simpl in *; [contradiction|].
  destruct Hin as [-> | Hin]; [split; auto|].
  destruct (IH Hin); split; auto.
Qed.

(** An entry is unlinked only after its request has been removed from the
    backend. *)
Lemma destory_events_order l before after cdev :
  destory_events l = before ++ ListDel cdev :: after ->
  In (FreqQosRemove (qos_req cdev)) before.
Proof.
  revert before; induction l as [|priv tmp IH]; intros before E; simpl in E.
  - destruct before; discriminate.
  - destruct before as [|e1 [|e2 [|e3 before]]]; simpl in E;
      try discriminate.
    + injection E as E1 E2 _; subst e1 cdev; now left.
    + injection E as _ _ _ E.
      right; right; right; now apply IH.
Qed.

Lemma destory_run_history l h s :
  In s (destory_run l h) -> incl h (history s).
Proof.
  revert h; induction l as [|priv tmp IH]; intros h Hin; simpl in Hin;
    [contradiction|].
  destruct Hin as [<- | [<- | Hin]]; simpl.
  - intros e He; apply in_or_app; now left.
  - intros e He; apply in_or_app; left; apply in_or_app; now left.
  - apply IH in Hin; intros e He; apply Hin.
    repeat (apply in_or_app; left); exact He.
Qed.

(** In no state of the teardown is an entry off the list while its request
    is still with the backend. *)
Lemma destory_run_released l h s cdev :
  In s (destory_run l h) -> In cdev l -> ~ In cdev (cpufreq_dev_list s) ->
  In (FreqQosRemove (qos_req cdev)) (history s).
Proof.
  revert h; induction l as [|priv tmp IH]; intros h Hs Hin Hout;
    simpl in Hs; [contradiction|].
  destruct Hs as [<- | [<- | Hs]]; simpl in *.
  - contradiction.
  - destruct Hin as [-> | Hin]; [|contradiction].
    apply in_or_app; left; apply in_or_app; right; now left.
  - destruct Hin as [-> | Hin].
    + apply (destory_run_history _ _ _ Hs).
      apply in_or_app; left; apply in_or_app; left.
      apply in_or_app; right; now left.
    + now apply (IH _ Hs).
Qed.

Lemma destory_run_prefix l h s :
  In s (destory_run l h) ->
  exists later, history (destory_walk l h) = history s ++ later.
Proof.
  revert h; induction l as [|priv tmp IH]; intros h Hs; simpl in Hs;
    [contradiction|].
  destruct Hs as [<- | [<- | Hs]]; simpl.
  - rewrite destory_walk_spec; simpl.
    exists ([ListDel priv; Kfree priv] ++ destory_events tmp).
    rewrite <- !app_assoc; reflexivity.
  - rewrite destory_walk_spec; simpl.
    exists ([Kfree priv] ++ destory_events tmp).
    rewrite <- !app_assoc; reflexivity.
  - apply IH in Hs as [later E]; exists later.
    rewrite <- E, <- !app_assoc; reflexivity.
Qed.

(** C7 (as the code has it): [destory_thermal_cpu] removes the request of
    every entry from the backend before it unlinks that entry, so that in no
    state of the teardown an entry is off the list while its request is still
    registered, and it leaves the list empty.  A capping call made afterwards
    finds no entry for any processor id: it does nothing and reports no
    error. *)
Theorem destory_thermal_cpu_order k :
  cpufreq_dev_list (destory_thermal_cpu k) = [] /\
  history (destory_thermal_cpu k) =
    history k ++ destory_events (cpufreq_dev_list k) /\
  (forall cdev, In cdev (cpufreq_dev_list k) ->
     In (FreqQosRemove (qos_req cdev)) (destory_events (cpufreq_dev_list k)) /\
     In (ListDel cdev) (destory_events (cpufreq_dev_list k))) /\
  (forall before after cdev,
     destory_events (cpufreq_dev_list k) = before ++ ListDel cdev :: after ->
     In (FreqQosRemove (qos_req cdev)) before) /\
  (forall s, In s (destory_run (cpufreq_dev_list k) (history k)) ->
     (exists later, history (destory_thermal_cpu k) = history s ++ later) /\
     forall cdev, In cdev (cpufreq_dev_list k) ->
                  ~ In cdev (cpufreq_dev_list s) ->
                  In (FreqQosRemove (qos_req cdev)) (history s)) /\
  (forall P cpu max_freq len,
     cpu_limits_set_level P (destory_thermal_cpu k) cpu max_freq =
       Some (destory_thermal_cpu k) /\
     cpu_limits_store P (destory_thermal_cpu k) (Some (cpu, max_freq)) len =
       Some (destory_thermal_cpu k, len)).
Proof.
  unfold destory_thermal_cpu; rewrite destory_walk_spec; simpl.
  split; [reflexivity|]; split; [reflexivity|].
  split; [apply destory_events_cover|].
  split; [apply destory_events_order|].
  split.
  - intros s Hs; split.
    + destruct (destory_run_prefix _ _ _ Hs) as [later E].
      exists later; rewrite <- E, destory_walk_spec; reflexivity.
    + intros cdev Hin Hout.
      exact (destory_run_released _ _ _ _ Hs Hin Hout).
  - intros P cpu max_freq len; split; reflexivity.
Qed.

Lemma destory_thermal_cpu_order_witness :
  cpufreq_dev_list (destory_thermal_cpu kernel0) = [] /\
  history (destory_thermal_cpu kernel0) =
    [FreqQosRemove 0; ListDel cdev0; Kfree cdev0].
Proof.
  destruct (destory_thermal_cpu_order kernel0) as (Hl & Hh & _).
  split; [exact Hl | exact Hh].
Defined.

(** C7 fails as stated in its last part: after teardown the store for
    processor 0, which had an entry before, returns its length, 10, and not
    an error value. *)
Lemma cap_after_teardown_counterexample :
  cpufreq_dev_list (destory_thermal_cpu kernel0) = [] /\
  cpu_limits_store platform_ok (destory_thermal_cpu kernel0)
                   (Some (0, 1500)) 10 =
    Some (destory_thermal_cpu kernel0, 10) /\
  ~ (10 < 0).
Proof.
  split; [reflexivity|]; split; [reflexivity | lia].
Qed.

(** ** The invariant of the entries *)

Lemma seeded_entry_later h h' cdev :
  incl h h' -> seeded_entry h cdev -> seeded_entry h' cdev.
Proof.
  intros Hincl (Hs & Ht & f0 & H0 & Hin & Hmax).
  split; [exact Hs|]; split; [exact Ht|].
  exists f0; repeat split; auto.
Qed.

Section InitInvariant.

Variable P : platform.

Lemma cpu_thermal_init_body_defined k cpu :
  exists r, cpu_thermal_init_body P k cpu = Some r.
Proof.
  unfold cpu_thermal_init_body.
  destruct (cpufreq_cpu_get P cpu) as [pol|]; [|eexists; reflexivity].
  destruct (_ =? 0)%nat; [eexists; reflexivity|].
  destruct (kzalloc P cpu); [|eexists; reflexivity].
  destruct (kmalloc_array P cpu); [|eexists; reflexivity].
  unfold build_freq_table; simpl.
  destruct (_ <? 0); eexists; reflexivity.
Qed.

Lemma cpu_thermal_init_body_return k cpu k' code :
  cpu_thermal_init_body P k cpu = Some (k', Return code) ->
  cpufreq_dev_list k' = cpufreq_dev_list k /\ incl (history k) (history k').
Proof.
  unfold cpu_thermal_init_body.
  destruct (cpufreq_cpu_get P cpu) as [pol|].
  2:{ intros [= <- _]; split; [reflexivity | apply incl_refl]. }
  destruct (_ =? 0)%nat.
  { intros [= <- _]; split; [reflexivity | apply incl_refl]. }
  destruct (kzalloc P cpu).
  2:{ intros [= <- _]; split; [reflexivity | apply incl_refl]. }
  destruct (kmalloc_array P cpu).
  2:{ intros [= <- _]; split; [reflexivity | apply incl_refl]. }
  unfold build_freq_table; simpl.
  destruct (_ <? 0); [|discriminate].
  intros [= <- _]; simpl; split; [reflexivity | apply incl_appl, incl_refl].
Qed.

Lemma cpu_thermal_init_body_next k cpu k' ret :
  cpu_thermal_init_body P k cpu = Some (k', Next ret) ->
  exists cdev,
    cpufreq_dev_list k' = cdev :: cpufreq_dev_list k /\
    wf_device cdev /\ qos_req cdev = cpu /\
    seeded_entry (history k') cdev /\
    incl (history k) (history k').
Proof.
  unfold cpu_thermal_init_body.
  destruct (cpufreq_cpu_get P cpu) as [pol|]; [|discriminate].
  destruct (_ =? 0)%nat; [discriminate|].
  destruct (kzalloc P cpu); [|discriminate].
  destruct (kmalloc_array P cpu); [|discriminate].
  unfold build_freq_table; simpl.
  destruct (_ <? 0); [discriminate|].
  intros [= <- _]; simpl.
  eexists; split; [reflexivity|].
  split; [|split; [reflexivity|split]].
  - split; simpl; [lia|].
    rewrite fill_freq_table_length; reflexivity.
  - split; [reflexivity|]; split; [reflexivity|]; simpl.
    eexists; split; [reflexivity|]; split.
    + apply in_or_app; left; apply in_or_app; right; now left.
    + intros Hu x Hx.
      apply find_next_max_upper; [exact Hx|].
      apply (valid_entries_range _ x Hu Hx).
  - apply incl_appl, incl_appl, incl_refl.
Qed.

Lemma cpu_thermal_init_loop_invariant cpus k ret :
  exists k' fl new,
    cpu_thermal_init_loop P cpus k ret = Some (k', fl) /\
    cpufreq_dev_list k' = new ++ cpufreq_dev_list k /\
    Forall wf_device new /\
    Forall (seeded_entry (history k')) new /\
    incl (history k) (history k').
Proof.
  revert k ret; induction cpus as [|cpu rest IH]; intros k ret; simpl.
  - exists k, (Next ret), []; repeat split; auto; apply incl_refl.
  - destruct (cpu_thermal_init_body_defined k cpu) as [[k1 [ret1|code]] E];
      rewrite E.
    + apply cpu_thermal_init_body_next in E
        as (cdev & Hl & Hwf & _ & Hseed & Hincl).
      destruct (IH k1 ret1) as (k' & fl & new & E' & Hl' & Hwf' & Hs' & Hi').
      exists k', fl, (new ++ [cdev]); split; [exact E'|].
      split; [rewrite Hl', Hl, <- app_assoc; reflexivity|].
      split; [apply Forall_app; split; auto|].
      split.
      * apply Forall_app; split; [exact Hs'|].
        constructor; [|constructor].
        now apply seeded_entry_later with (history k1).
      * eapply incl_tran; eassumption.
    + apply cpu_thermal_init_body_return in E as [Hl Hincl].
      exists k1, (Return code), []; repeat split; auto.
Qed.

Lemma cpu_limits_walk_invariant l h cpu max_freq :
  Forall wf_device l ->
  exists l' h',
    cpu_limits_walk P l h cpu max_freq = Some (l', h') /\
    Forall wf_device l' /\
    map freq_table l' = map freq_table l /\
    map max_level l' = map max_level l.
Proof.
  induction 1 as [|cdev l Hwf Hl IH]; simpl.
  - exists [], h; repeat split; constructor.
  - destruct (to_u32 (id cdev) =? cpu).
    + destruct (resolve_defined cdev max_freq Hwf) as [[level|] E];
        rewrite E.
      * destruct (cpufreq_set_level P h cdev level)
          as [[[cdev' h'] ret]|] eqn:Eset.
        -- apply cpufreq_set_level_keeps in Eset
             as (_ & Hm & Ht & _ & _ & Hwf').
           exists (cdev' :: l), h'; simpl; rewrite Hm, Ht.
           repeat split; auto.
        -- exfalso.
           apply scan_levels_matched in E as (Hlevel & _ & _).
           destruct (wf_device_slot cdev level Hwf ltac:(lia)) as [f Hf].
           unfold cpufreq_set_level in Eset; rewrite Hf in Eset.
           destruct (_ <? _)%nat; [discriminate|].
           destruct (_ =? _)%nat; discriminate.
      * exists (cdev :: l), h; repeat split; auto.
    + destruct IH as (l' & h' & E & Hwf' & Ht & Hm); rewrite E.
      exists (cdev :: l'), h'; simpl; rewrite Ht, Hm; repeat split; auto.
Qed.

End InitInvariant.

(** C8: every entry that [cpu_thermal_init] creates has level 0, a ladder
    of [max_level + 1] slots and a request registered with the frequency of
    slot 0, the highest valid frequency of the processor; a table whose
    entries satisfy [0 <= level <= max_level = length - 1] still does after
    initialisation, after a capping call and after [cpufreq_set_level] with
    any level, and these never change a ladder. *)
Theorem entry_invariant P k ret0 cpu max_freq :
  Forall wf_device (cpufreq_dev_list k) ->
  (exists k1 ret new,
      cpu_thermal_init P k ret0 = Some (k1, ret) /\
      cpufreq_dev_list k1 = new ++ cpufreq_dev_list k /\
      Forall wf_device (cpufreq_dev_list k1) /\
      Forall (seeded_entry (history k1)) new) /\
  (exists k2,
      cpu_limits_set_level P k cpu max_freq = Some k2 /\
      Forall wf_device (cpufreq_dev_list k2) /\
      map freq_table (cpufreq_dev_list k2) =
        map freq_table (cpufreq_dev_list k) /\
      map max_level (cpufreq_dev_list k2) =
        map max_level (cpufreq_dev_list k)) /\
  (forall h cdev state cdev' h' ret,
      wf_device cdev ->
      cpufreq_set_level P h cdev state = Some (cdev', h', ret) ->
      wf_device cdev' /\ freq_table cdev' = freq_table cdev).
Proof.
  intros Hwf; split; [|split].
  - destruct (cpu_thermal_init_loop_invariant P (possible_cpus P) k ret0)
      as (k1 & fl & new & E & Hl & Hnew & Hseed & _).
    exists k1, (match fl with Next r => r | Return c => c end), new.
    split; [unfold cpu_thermal_init; rewrite E; destruct fl; reflexivity|].
    split; [exact Hl|]; split; [|exact Hseed].
    rewrite Hl; apply Forall_app; split; assumption.
  - destruct (cpu_limits_walk_invariant P _ (history k) cpu max_freq Hwf)
      as (l' & h' & E & Hwf' & Ht & Hm).
    exists {| cpufreq_dev_list := l'; history := h' |}.
    unfold cpu_limits_set_level; rewrite E; repeat split; assumption.
  - intros h cdev state cdev' h' ret Hc Eset.
    apply cpufreq_set_level_keeps in Eset as (_ & _ & Ht & _ & _ & Hwf').
    split; auto.
Qed.

Lemma entry_invariant_witness :
  Forall wf_device (cpufreq_dev_list boot) /\
  exists k1 ret,
    cpu_thermal_init platform_ok boot 0 = Some (k1, ret) /\
    Forall wf_device (cpufreq_dev_list k1).
Proof.
  split; [constructor|].
  destruct (entry_invariant platform_ok boot 0 0 1800 (Forall_nil _))
    as ((k1 & ret & new & E & _ & Hwf & _) & _).
  exists k1, ret; split; assumption.
Defined.

(** ** Capability sets with repeated frequencies *)

Lemma set_cpufreq_state_current cdev :
  set_cpufreq_state cdev (cpufreq_state cdev) = cdev.
Proof. destruct cdev; reflexivity. Qed.

(** A ladder with a zero slot matches every request. *)
Lemma resolve_with_zero_slot cdev max_freq :
  wf_device cdev -> 0 <= max_freq -> In 0 (freq_table cdev) ->
  exists level, resolve cdev max_freq = Some (Matched level).
Proof.
  intros Hwf Hpos Hin.
  destruct (resolve_defined cdev max_freq Hwf) as [[level|] E];
    [now exists level|].
  apply In_nth_error in Hin as [i Hi].
  pose proof (wf_device_index cdev i 0 Hwf Hi) as Hle.
  pose proof (scan_levels_nomatch _ _ _ _ E i 0 ltac:(lia) Hi); lia.
Qed.

(** C10: when the valid entries of the raw table contain a repeated
    frequency, the ladder ends in at least one slot holding 0.  Every request
    then matches some level.  A request below all the positive frequencies
    resolves to the first zero slot: the call records that level and, unless
    the entry is already at it, pushes a ceiling of 0 to the backend.  A
    request is left without a match only on a ladder that has no zero
    slot. *)
Theorem duplicates_leave_zero_slots table cdev max_freq :
  Forall u32 table ->
  valid_entries table <> [] ->
  ~ NoDup (valid_entries table) ->
  wf_device cdev ->
  freq_table cdev = ladder_of table ->
  0 <= max_freq ->
  exists run zeros,
    ladder_of table = run ++ repeat 0 (S zeros) /\
    StronglySorted Z.gt run /\
    Forall (fun x => 0 < x) run /\
    (exists level, resolve cdev max_freq = Some (Matched level)) /\
    (forall d, wf_device d -> resolve d max_freq = Some NoMatch ->
               ~ In 0 (freq_table d)) /\
    ((forall x, In x run -> max_freq < x) ->
     resolve cdev max_freq = Some (Matched (length run)) /\
     nth_error (freq_table cdev) (length run) = Some 0 /\
     forall P k pre post cpu,
       cpufreq_dev_list k = pre ++ cdev :: post ->
       Forall (fun d => to_u32 (id d) <> cpu) pre ->
       to_u32 (id cdev) = cpu ->
       cpu_limits_set_level P k cpu max_freq =
       Some {| cpufreq_dev_list :=
                 pre ++ set_cpufreq_state cdev (length run) :: post;
               history :=
                 history k ++
                 (if (cpufreq_state cdev =? length run)%nat then []
                  else [FreqQosUpdate (qos_req cdev) 0]) |}).
Proof.
  intros Hu Hne Hdup Hwf Ht Hpos.
  destruct (ladder_of_shape table Hu Hne) as (run & k & E & Hs & Hrun & Hlen).
  destruct k as [|zeros].
  { exfalso; apply Hdup.
    apply NoDup_incl_NoDup with (l := run).
    - now apply strictly_descending_NoDup.
    - lia.
    - intros x Hx; now apply Hrun. }
  assert (Hzero : nth_error (freq_table cdev) (length run) = Some 0).
  { rewrite Ht, E, nth_error_app2, Nat.sub_diag by lia; reflexivity. }
  exists run, zeros; split; [exact E|]; split; [exact Hs|].
  split; [|split; [|split]].
  - apply Forall_forall; intros x Hx; apply Hrun in Hx as [Hx Hnz].
    pose proof (valid_entries_range table x Hu Hx); lia.
  - apply resolve_with_zero_slot; auto.
    now apply nth_error_In with (length run).
  - intros d Hd Hres Hin.
    destruct (resolve_with_zero_slot d max_freq Hd Hpos Hin) as [level E'].
    congruence.
  - intros Hbelow.
    pose proof (wf_device_index cdev _ 0 Hwf Hzero) as Hle.
    assert (Hres : resolve cdev max_freq = Some (Matched (length run))).
    { apply resolve_first with (fj := 0); auto.
      intros i fi Hi Hnth; apply Hbelow.
      rewrite Ht, E, nth_error_app1 in Hnth by exact Hi.
      now apply nth_error_In with i. }
    split; [exact Hres|]; split; [exact Hzero|].
    intros P k0 pre post cpu Hl Hpre Hid.
    unfold cpu_limits_set_level.
    rewrite Hl, (cpu_limits_walk_focus P pre cdev post _ _ _ Hpre Hid), Hres.
    destruct (Nat.eqb_spec (cpufreq_state cdev) (length run)) as [Hc | Hc].
    + rewrite (cpufreq_set_level_same P _ cdev _ Hle Hc).
      rewrite <- Hc, set_cpufreq_state_current, app_nil_r; reflexivity.
    + rewrite (cpufreq_set_level_change P _ cdev _ 0 Hle Hc Hzero).
      reflexivity.
Qed.

Lemma duplicates_leave_zero_slots_witness :
  ladder_of [1000; 1000] = [1000; 0] /\
  resolve cdev_dup 500 = Some (Matched 1) /\
  cpu_limits_set_level platform_ok kernel_dup 4 500 =
    Some {| cpufreq_dev_list := [set_cpufreq_state cdev_dup 1];
            history := [FreqQosUpdate 4 0] |}.
Proof.
  destruct (duplicates_leave_zero_slots [1000; 1000] cdev_dup 500)
    as (run & zeros & E & Hs & Hposr & _ & _ & Hlow).
  - repeat constructor; unfold UINT_MAX; simpl; lia.
  - discriminate.
  - intros H; apply NoDup_cons_iff in H as [H _]; apply H; now left.
  - split; simpl; [lia | reflexivity].
  - reflexivity.
  - lia.
  - split; [reflexivity|].
    change (ladder_of [1000; 1000]) with ([1000] ++ repeat 0 1) in E.
    assert (Hrun : run = [1000]).
    { destruct run as [|a [|b run]].
      - simpl in E; discriminate.
      - simpl in E; injection E as <- _; reflexivity.
      - simpl in E; injection E as <- <- _.
        inversion Hposr as [|? ? _ H2]; inversion H2; lia. }
    subst run.
    destruct Hlow as (Hres & _ & Hcap).
    { intros x [<- | []]; lia. }
    split; [exact Hres|].
    apply (Hcap platform_ok kernel_dup [] [] 4);
      [reflexivity | constructor | reflexivity].
Defined.

(** * Further properties of the driver *)

(** ** The scan for the next maximum *)

(** X1: [find_next_max] returns the greatest valid entry strictly below
    [prev_max] when a positive one exists, and 0 when no valid entry below
    [prev_max] is positive. *)
Theorem find_next_max_greatest_below table prev_max :
  ((exists x, In x (valid_entries table) /\ 0 < x < prev_max) ->
   In (find_next_max table prev_max) (valid_entries table) /\
   0 < find_next_max table prev_max < prev_max /\
   forall x, In x (valid_entries table) -> x < prev_max ->
             x <= find_next_max table prev_max) /\
  ((forall x, In x (valid_entries table) -> x < prev_max -> x <= 0) ->
   find_next_max table prev_max = 0).
Proof.
  split.
  - intros (x & Hx & Hpos).
    pose proof (find_next_max_upper table prev_max x Hx ltac:(lia)) as Hle.
    destruct (find_next_max_origin table prev_max) as [E | (Hin & Hr)];
      [lia|].
    repeat split; try lia; auto.
    intros y Hy Hlt; now apply find_next_max_upper.
  - intros Hnone.
    destruct (find_next_max_origin table prev_max) as [E | (Hin & Hr)];
      [exact E|].
    specialize (Hnone _ Hin ltac:(lia)); lia.
Qed.

Lemma find_next_max_same_members table table' prev_max :
  (forall x, In x (valid_entries table) <-> In x (valid_entries table')) ->
  find_next_max table prev_max = find_next_max table' prev_max.
Proof.
  intros Hsame.
  destruct (find_next_max_origin table prev_max) as [E | (Hin & Hr)];
    destruct (find_next_max_origin table' prev_max) as [E' | (Hin' & Hr')].
  - congruence.
  - apply Hsame in Hin'.
    pose proof (find_next_max_upper table prev_max _ Hin' ltac:(lia)); lia.
  - apply Hsame in Hin.
    pose proof (find_next_max_upper table' prev_max _ Hin ltac:(lia)); lia.
  - apply Hsame in Hin; apply Hsame in Hin'.
    pose proof (find_next_max_upper table prev_max _ Hin' ltac:(lia)).
    pose proof (find_next_max_upper table' prev_max _ Hin ltac:(lia)).
    lia.
Qed.

Lemma valid_entries_permutation table table' :
  Permutation table table' ->
  (forall x, In x (valid_entries table) <-> In x (valid_entries table')) /\
  length (valid_entries table) = length (valid_entries table').
Proof.
  intros Hp; split.
  - intros x; unfold valid_entries; rewrite !filter_In.
    split; intros [Hin Hv]; split; auto.
    + eapply Permutation_in; eassumption.
    + eapply Permutation_in; [symmetry|]; eassumption.
  - unfold valid_entries.
    induction Hp as [|a l l' Hp IH|a b l|l l' l'' Hp IH Hp' IH']; simpl.
    + reflexivity.
    + destruct (negb _); simpl; congruence.
    + destruct (negb (a =? _)); destruct (negb (b =? _)); reflexivity.
    + congruence.
Qed.

(** X2: the order of the raw table does not matter: two raw tables that are
    permutations of each other give the same next maximum for every bound
    and the same ladder. *)
Theorem ladder_of_permutation table table' :
  Permutation table table' ->
  (forall prev_max,
      find_next_max table prev_max = find_next_max table' prev_max) /\
  ladder_of table = ladder_of table'.
Proof.
  intros Hp.
  destruct (valid_entries_permutation table table' Hp) as [Hsame Hlen].
  assert (Hf : forall prev_max,
             find_next_max table prev_max = find_next_max table' prev_max)
    by (intros; now apply find_next_max_same_members).
  split; [exact Hf|].
  unfold ladder_of, build_freq_table, cpufreq_table_count_valid_entries.
  rewrite Hlen.
  generalize (S (length (valid_entries table') - 1)) (to_u32 (-1)).
  intros n; induction n as [|n IH]; intros freq; simpl; [reflexivity|].
  rewrite Hf, IH; reflexivity.
Qed.

Lemma ladder_of_permutation_witness :
  ladder_of [1500; 1000; 2000] = ladder_of [1000; 2000; 1500].
Proof.
  apply (ladder_of_permutation [1500; 1000; 2000] [1000; 2000; 1500]).
  apply perm_trans with [1000; 1500; 2000].
  - apply perm_swap.
  - apply perm_skip, perm_swap.
Defined.

(** ** The ladder of an arbitrary raw table *)

Lemma weakly_descending_app_zeros (run : list Z) (k : nat) :
  StronglySorted Z.gt run -> Forall (fun x => 0 < x) run ->
  StronglySorted Z.ge (run ++ repeat 0 k).
Proof.
  induction 1 as [|a l Hs IH Hall]; intros Hpos; simpl.
  - induction k as [|k IHk]; simpl; constructor; [exact IHk|].
    apply Forall_forall; intros x Hx; apply repeat_spec in Hx; lia.
  - inversion Hpos as [|? ? Ha Hl]; subst.
    constructor; [now apply IH|].
    apply Forall_app; split.
    + eapply Forall_impl; [|exact Hall]; simpl; intros; lia.
    + apply Forall_forall; intros x Hx; apply repeat_spec in Hx; lia.
Qed.

(** X3: whatever the raw table (duplicates, any order), the ladder has one
    slot per valid entry, is in descending order in the weak sense, holds
    only valid entries and zeros, holds every positive valid entry exactly
    once, and starts with the greatest valid entry. *)
Theorem ladder_of_weakly_descending table :
  Forall u32 table ->
  valid_entries table <> [] ->
  length (ladder_of table) = length (valid_entries table) /\
  StronglySorted Z.ge (ladder_of table) /\
  (forall x, In x (ladder_of table) ->
             x = 0 \/ In x (valid_entries table)) /\
  (forall x, In x (valid_entries table) -> 0 < x ->
             count_occ Z.eq_dec (ladder_of table) x = 1%nat) /\
  In (hd 0 (ladder_of table)) (valid_entries table) /\
  (forall x, In x (valid_entries table) -> x <= hd 0 (ladder_of table)).
Proof.
  intros Hu Hne.
  destruct (ladder_of_shape table Hu Hne) as (run & k & E & Hs & Hrun & Hlen).
  assert (Hpos : Forall (fun x => 0 < x) run).
  { apply Forall_forall; intros x Hx; apply Hrun in Hx as [Hx Hnz].
    pose proof (valid_entries_range table x Hu Hx); lia. }
  rewrite E; split; [|split; [|split; [|split]]].
  - rewrite length_app, repeat_length; exact Hlen.
  - now apply weakly_descending_app_zeros.
  - intros x Hx; apply in_app_or in Hx as [Hx | Hx].
    + right; now apply Hrun.
    + left; now apply in_repeat_zero in Hx.
  - intros x Hx Hxpos.
    rewrite count_occ_app, count_occ_repeat_neq by lia.
    rewrite Nat.add_0_r.
    apply (proj1 (NoDup_count_occ' Z.eq_dec run)).
    + now apply strictly_descending_NoDup.
    + apply Hrun; split; [exact Hx | lia].
  - destruct run as [|a run]; simpl.
    + assert (Hall0 : forall x, In x (valid_entries table) -> x = 0).
      { intros x Hx; destruct (Z.eq_dec x 0) as [-> | Hnz]; [reflexivity|].
        exfalso; apply (proj2 (Hrun x)); now split. }
      destruct (valid_entries table) as [|v vs] eqn:Ev; [congruence|].
      destruct k as [|k]; [simpl in Hlen; discriminate|]; simpl.
      split.
      * left; apply Hall0; now left.
      * intros x Hx; rewrite (Hall0 x Hx); lia.
    + split; [apply Hrun; now left|].
      intros x Hx; destruct (Z.eq_dec x 0) as [-> | Hnz].
      * inversion Hpos; lia.
      * assert (Hin : In x (a :: run)) by (apply Hrun; now split).
        destruct Hin as [<- | Hin]; [lia|].
        apply StronglySorted_inv in Hs as [_ Hall].
        rewrite Forall_forall in Hall; specialize (Hall x Hin); lia.
Qed.

Lemma ladder_of_weakly_descending_witness :
  length (ladder_of [1500; 2000; 1500]) = 3%nat /\
  StronglySorted Z.ge (ladder_of [1500; 2000; 1500]) /\
  hd 0 (ladder_of [1500; 2000; 1500]) = 2000.
Proof.
  destruct (ladder_of_weakly_descending [1500; 2000; 1500])
    as (Hlen & Hs & _).
  - repeat constructor; unfold UINT_MAX; simpl; lia.
  - discriminate.
  - split; [exact Hlen|]; split; [exact Hs | reflexivity].
Defined.

(** ** What a capping call can do *)

Lemma first_match_split (l : list cpufreq_device) (cpu : Z) :
  Forall (fun d => to_u32 (id d) <> cpu) l \/
  exists pre cdev post,
    l = pre ++ cdev :: post /\
    Forall (fun d => to_u32 (id d) <> cpu) pre /\
    to_u32 (id cdev) = cpu.
Proof.
  induction l as [|d l IH]; [left; constructor|].
  destruct (Z.eq_dec (to_u32 (id d)) cpu) as [E | Hne].
  - right; exists [], d, l; repeat split; auto.
  - destruct IH as [Hall | (pre & cdev & post & -> & Hpre & Hid)].
    + left; now constructor.
    + right; exists (d :: pre), cdev, post; repeat split; auto.
Qed.

(** X4: a capping call either leaves the driver state as it is, or it
    changes the level of exactly one entry, the first one whose id is the
    processor asked for, and issues exactly one backend update for that
    entry's request.  The frequency pushed is a slot of that entry's ladder,
    is never above the requested ceiling, and every slot before it is above
    the ceiling.  No other entry is touched. *)
Theorem cap_effects P k cpu max_freq k' :
  cpu_limits_set_level P k cpu max_freq = Some k' ->
  k' = k \/
  exists pre cdev post level v,
    cpufreq_dev_list k = pre ++ cdev :: post /\
    Forall (fun d => to_u32 (id d) <> cpu) pre /\
    to_u32 (id cdev) = cpu /\
    (level <= max_level cdev)%nat /\
    level <> cpufreq_state cdev /\
    nth_error (freq_table cdev) level = Some v /\
    v <= max_freq /\
    (forall i fi, (i < level)%nat ->
                  nth_error (freq_table cdev) i = Some fi -> max_freq < fi) /\
    cpufreq_dev_list k' = pre ++ set_cpufreq_state cdev level :: post /\
    history k' = history k ++ [FreqQosUpdate (qos_req cdev) v].
Proof.
  destruct k as [l h]; unfold cpu_limits_set_level; simpl.
  destruct (first_match_split l cpu)
    as [Hall | (pre & cdev & post & -> & Hpre & Hid)].
  - rewrite (cpu_limits_walk_unknown P l h cpu max_freq Hall).
    intros [= <-]; now left.
  - rewrite (cpu_limits_walk_focus P pre cdev post h cpu max_freq Hpre Hid).
    destruct (resolve cdev max_freq) as [[level|]|] eqn:Hres;
      [| intros [= <-]; now left | discriminate].
    apply scan_levels_matched in Hres as (Hlevel & (fj & Hfj & Hle) & Hbefore).
    unfold cpufreq_set_level.
    assert (Hin : (max_level cdev <? level)%nat = false)
      by (apply Nat.ltb_ge; lia).
    rewrite Hin, Hfj.
    destruct (Nat.eqb_spec (cpufreq_state cdev) level) as [Hc | Hc].
    + intros [= <-]; now left.
    + intros [= <-]; right.
      exists pre, cdev, post, level, fj; simpl.
      repeat split; auto; try lia.
      intros i fi Hi; apply Hbefore; lia.
Qed.

Lemma cap_effects_witness :
  exists k',
    cpu_limits_set_level platform_update_fails kernel0 0 1200 = Some k' /\
    history k' = [FreqQosUpdate 0 1000].
Proof.
  exists {| cpufreq_dev_list := [set_cpufreq_state cdev0 2];
            history := [FreqQosUpdate 0 1000] |}.
  split; [reflexivity|].
  destruct (cap_effects platform_update_fails kernel0 0 1200
              {| cpufreq_dev_list := [set_cpufreq_state cdev0 2];
                 history := [FreqQosUpdate 0 1000] |} eq_refl)
    as [E | _]; [discriminate | reflexivity].
Defined.

(** X5: the resolver is monotone: raising the ceiling never moves the
    resolved level further down the ladder, and on a ladder in (weakly)
    descending order never lowers the selected frequency. *)
Theorem resolve_monotone cdev max_freq max_freq' level :
  wf_device cdev ->
  max_freq <= max_freq' ->
  resolve cdev max_freq = Some (Matched level) ->
  exists level',
    resolve cdev max_freq' = Some (Matched level') /\
    (level' <= level)%nat /\
    (StronglySorted Z.ge (freq_table cdev) ->
     forall v v', nth_error (freq_table cdev) level = Some v ->
                  nth_error (freq_table cdev) level' = Some v' ->
                  v <= v').
Proof.
  intros Hwf Hle Hres.
  apply scan_levels_matched in Hres as (Hlevel & (fj & Hfj & Hfle) & Hbefore).
  destruct (resolve_defined cdev max_freq' Hwf) as [[level'|] E].
  - exists level'; split; [exact E|].
    apply scan_levels_matched in E as (_ & _ & Hbefore').
    assert (Hll : (level' <= level)%nat).
    { destruct (Nat.le_gt_cases level' level) as [H | H]; [exact H|].
      specialize (Hbefore' level fj ltac:(lia) Hfj); lia. }
    split; [exact Hll|].
    intros Hs v v' Hv Hv'.
    destruct (Nat.eq_dec level' level) as [-> | Hne];
      [assert (v = v') by congruence; lia|].
    clear - Hs Hv Hv' Hll Hne.
    revert level level' Hv Hv' Hll Hne.
    induction Hs as [|a l Hs IH Hall]; intros level level' Hv Hv' Hll Hne.
    + destruct level; discriminate.
    + destruct level as [|level]; [lia|]; simpl in Hv.
      destruct level' as [|level']; simpl in Hv'.
      * injection Hv' as <-; apply nth_error_In in Hv.
        rewrite Forall_forall in Hall; specialize (Hall v Hv); lia.
      * apply (IH level level'); auto; lia.
  - exfalso.
    pose proof (scan_levels_nomatch _ _ _ _ E level fj ltac:(lia) Hfj); lia.
Qed.

Lemma resolve_monotone_witness :
  exists level',
    resolve cdev0 1700 = Some (Matched level') /\ (level' <= 2)%nat.
Proof.
  destruct (resolve_monotone cdev0 1200 1700 2) as (level' & E & Hle & _).
  - split; simpl; [lia | reflexivity].
  - lia.
  - reflexivity.
  - exists level'; split; assumption.
Defined.

(** The entry a capping call leaves behind. *)
Lemma cap_focus_result P k pre cdev post cpu max_freq :
  cpufreq_dev_list k = pre ++ cdev :: post ->
  Forall (fun d => to_u32 (id d) <> cpu) pre ->
  to_u32 (id cdev) = cpu ->
  wf_device cdev ->
  exists k1 s,
    cpu_limits_set_level P k cpu max_freq = Some k1 /\
    cpufreq_dev_list k1 = pre ++ set_cpufreq_state cdev s :: post /\
    (s <= max_level cdev)%nat /\
    (forall level, resolve cdev max_freq = Some (Matched level) -> s = level) /\
    (resolve cdev max_freq = Some NoMatch -> s = cpufreq_state cdev).
Proof.
  intros Hl Hpre Hid Hwf; unfold cpu_limits_set_level.
  rewrite Hl, (cpu_limits_walk_focus P pre cdev post _ cpu max_freq Hpre Hid).
  destruct (resolve_defined cdev max_freq Hwf) as [[level|] Hres]; rewrite Hres.
  - pose proof Hres as Hm.
    apply scan_levels_matched in Hm as (Hlevel & _ & _).
    assert (Hle : (level <= max_level cdev)%nat) by lia.
    destruct (Nat.eq_dec (cpufreq_state cdev) level) as [Hc | Hc].
    + rewrite (cpufreq_set_level_same P _ cdev level Hle Hc).
      eexists; exists level; split; [reflexivity|]; simpl.
      rewrite <- Hc, set_cpufreq_state_current.
      split; [reflexivity|]; split; [lia|]; split; [congruence | discriminate].
    + destruct (wf_device_slot cdev level Hwf Hle) as [f Hf].
      rewrite (cpufreq_set_level_change P _ cdev level f Hle Hc Hf).
      eexists; exists level; split; [reflexivity|]; simpl.
      split; [reflexivity|]; split; [exact Hle|];
        split; [congruence | discriminate].
  - eexists; exists (cpufreq_state cdev); split; [reflexivity|]; simpl.
    rewrite set_cpufreq_state_current.
    split; [reflexivity|]; split; [apply Hwf|]; split; [discriminate | auto].
Qed.

(** X6: the last request wins.  After two capping calls for the same
    processor the table is the one that the second call alone would have
    produced, provided the second ceiling matches a level; a second ceiling
    that matches no level leaves the table as the first call left it. *)
Theorem cap_last_request_wins P k pre cdev post cpu max_freq1 max_freq2 :
  cpufreq_dev_list k = pre ++ cdev :: post ->
  Forall (fun d => to_u32 (id d) <> cpu) pre ->
  to_u32 (id cdev) = cpu ->
  wf_device cdev ->
  exists k1 k2 k2',
    cpu_limits_set_level P k cpu max_freq1 = Some k1 /\
    cpu_limits_set_level P k1 cpu max_freq2 = Some k2 /\
    cpu_limits_set_level P k cpu max_freq2 = Some k2' /\
    (forall level,
        resolve cdev max_freq2 = Some (Matched level) ->
        cpufreq_dev_list k2 = pre ++ set_cpufreq_state cdev level :: post /\
        cpufreq_dev_list k2 = cpufreq_dev_list k2') /\
    (resolve cdev max_freq2 = Some NoMatch ->
     cpufreq_dev_list k2 = cpufreq_dev_list k1).
Proof.
  intros Hl Hpre Hid Hwf.
  destruct (cap_focus_result P k pre cdev post cpu max_freq1 Hl Hpre Hid Hwf)
    as (k1 & s1 & E1 & Hl1 & Hs1 & _ & _).
  assert (Hwf1 : wf_device (set_cpufreq_state cdev s1)).
  { split; simpl; [exact Hs1 | apply Hwf]. }
  destruct (cap_focus_result P k1 pre (set_cpufreq_state cdev s1) post cpu
              max_freq2 Hl1 Hpre Hid Hwf1)
    as (k2 & s2 & E2 & Hl2 & _ & Hm2 & Hn2).
  destruct (cap_focus_result P k pre cdev post cpu max_freq2 Hl Hpre Hid Hwf)
    as (k2' & s2' & E2' & Hl2' & _ & Hm2' & _).
  rewrite resolve_set_state in Hm2, Hn2; simpl in Hl2, Hn2.
  exists k1, k2, k2'.
  split; [exact E1|]; split; [exact E2|]; split; [exact E2'|]; split.
  - intros level Hm; split.
    + rewrite Hl2, (Hm2 level Hm); reflexivity.
    + rewrite Hl2, Hl2', (Hm2 level Hm), (Hm2' level Hm); reflexivity.
  - intros Hno; rewrite Hl2, Hl1, (Hn2 Hno); reflexivity.
Qed.

Lemma cap_last_request_wins_witness :
  exists k1 k2,
    cpu_limits_set_level platform_ok kernel0 0 1200 = Some k1 /\
    cpu_limits_set_level platform_ok k1 0 1800 = Some k2 /\
    cpufreq_dev_list k2 = [set_cpufreq_state cdev0 1].
Proof.
  destruct (cap_last_request_wins platform_ok kernel0 [] cdev0 [] 0 1200 1800)
    as (k1 & k2 & k2' & E1 & E2 & _ & Hm & _).
  - reflexivity.
  - constructor.
  - reflexivity.
  - split; simpl; [lia | reflexivity].
  - exists k1, k2; split; [exact E1|]; split; [exact E2|].
    apply (Hm 1%nat); reflexivity.
Defined.

(** ** The sysfs store and the level update *)

(** X7: [cpu_limits_store] reports an error only for input that does not
    parse, and then changes nothing; once the two fields are parsed it
    returns the length of the input, whatever the processor id, the ceiling
    and the answer of the backend. *)
Theorem cpu_limits_store_result P k parsed len :
  Forall wf_device (cpufreq_dev_list k) ->
  exists k' ret,
    cpu_limits_store P k parsed len = Some (k', ret) /\
    match parsed with
    | None => k' = k /\ ret = - Errno.EINVAL
    | Some (cpu, max_freq) =>
        ret = len /\ cpu_limits_set_level P k cpu max_freq = Some k'
    end.
Proof.
  intros Hwf; destruct parsed as [[cpu max_freq]|]; simpl.
  - destruct (cpu_limits_walk_invariant P _ (history k) cpu max_freq Hwf)
      as (l' & h' & E & _).
    unfold cpu_limits_set_level; rewrite E.
    eexists; eexists; split; [reflexivity|]; split; reflexivity.
  - exists k, (- Errno.EINVAL); repeat split.
Qed.

Lemma cpu_limits_store_result_witness :
  exists k',
    cpu_limits_store platform_update_fails kernel0 (Some (0, 1800)) 12 =
      Some (k', 12).
Proof.
  destruct (cpu_limits_store_result platform_update_fails kernel0
              (Some (0, 1800)) 12) as (k' & ret & E & Hret & _).
  - repeat constructor; simpl; lia.
  - exists k'; subst ret; exact E.
Defined.

(** X8: [cpufreq_set_level] leaves the entry at the requested level exactly
    when that level is within the ladder.  A level beyond [max_level] is
    refused with [-EINVAL] without touching the entry or the backend; a
    level within range is recorded, with at most one backend update, whose
    frequency is the slot of that level. *)
Theorem cpufreq_set_level_range P h cdev state :
  wf_device cdev ->
  exists cdev' h' ret,
    cpufreq_set_level P h cdev state = Some (cdev', h', ret) /\
    (cpufreq_state cdev' = state <-> (state <= max_level cdev)%nat) /\
    ((max_level cdev < state)%nat ->
     cdev' = cdev /\ h' = h /\ ret = - Errno.EINVAL) /\
    ((state <= max_level cdev)%nat ->
     cdev' = set_cpufreq_state cdev state /\
     ((cpufreq_state cdev = state /\ h' = h /\ ret = 0) \/
      (cpufreq_state cdev <> state /\
       exists v, nth_error (freq_table cdev) state = Some v /\
                 h' = h ++ [FreqQosUpdate (qos_req cdev) v] /\
                 ret = freq_qos_ret P h (FreqQosUpdate (qos_req cdev) v)))).
Proof.
  intros Hwf.
  destruct (Nat.le_gt_cases state (max_level cdev)) as [Hle | Hgt].
  - destruct (Nat.eq_dec (cpufreq_state cdev) state) as [Hc | Hc].
    + rewrite (cpufreq_set_level_same P h cdev state Hle Hc).
      exists cdev, h, 0; split; [reflexivity|].
      split; [tauto|]; split; [lia|].
      intros _; split; [rewrite <- Hc; now rewrite set_cpufreq_state_current|].
      left; auto.
    + destruct (wf_device_slot cdev state Hwf Hle) as [v Hv].
      rewrite (cpufreq_set_level_change P h cdev state v Hle Hc Hv).
      eexists; eexists; eexists; split; [reflexivity|]; simpl.
      split; [tauto|]; split; [lia|].
      intros _; split; [reflexivity|].
      right; split; [exact Hc|]; exists v; auto.
  - unfold cpufreq_set_level.
    apply Nat.ltb_lt in Hgt; rewrite Hgt; apply Nat.ltb_lt in Hgt.
    exists cdev, h, (- Errno.EINVAL); split; [reflexivity|].
    destruct Hwf as [Hs _].
    split; [split; lia|]; split; [auto | lia].
Qed.

Lemma cpufreq_set_level_range_witness :
  cpufreq_set_level platform_ok [] cdev0 3 =
    Some (cdev0, [], - Errno.EINVAL).
Proof.
  destruct (cpufreq_set_level_range platform_ok [] cdev0 3)
    as (cdev' & h' & ret & E & _ & Hout & _).
  - split; simpl; [lia | reflexivity].
  - destruct Hout as (-> & -> & ->); [simpl; lia | exact E].
Defined.

(** ** The outcome of initialisation *)

Section InitOutcome.

Variable P : platform.

Lemma cpu_thermal_init_body_cases k cpu k' fl :
  cpu_thermal_init_body P k cpu = Some (k', fl) ->
  match fl with
  | Next ret =>
      0 <= ret /\
      exists cdev f0,
        cpufreq_dev_list k' = cdev :: cpufreq_dev_list k /\
        qos_req cdev = cpu /\
        cpufreq_cpu_get P cpu = Some (policy cdev) /\
        id cdev = policy_cpu (policy cdev) /\
        history k' = history k ++ [FreqQosAdd cpu f0; ListAdd cdev]
  | Return code =>
      code < 0 /\
      cpufreq_dev_list k' = cpufreq_dev_list k /\
      (history k' = history k \/
       exists f0, history k' = history k ++ [FreqQosAdd cpu f0])
  end.
Proof.
  unfold cpu_thermal_init_body.
  destruct (cpufreq_cpu_get P cpu) as [pol|].
  2:{ intros [= <- <-]; repeat split; auto. }
  destruct (_ =? 0)%nat.
  { intros [= <- <-]; repeat split; auto. }
  destruct (kzalloc P cpu).
  2:{ intros [= <- <-]; repeat split; auto. }
  destruct (kmalloc_array P cpu).
  2:{ intros [= <- <-]; repeat split; auto. }
  unfold build_freq_table; simpl.
  destruct (_ <? 0) eqn:Hret; intros [= <- <-]; simpl.
  - apply Z.ltb_lt in Hret; repeat split; auto.
    right; eexists; reflexivity.
  - apply Z.ltb_ge in Hret; split; [exact Hret|].
    eexists; eexists; repeat split.
    rewrite <- app_assoc; reflexivity.
Qed.

Lemma cpu_thermal_init_loop_outcome cpus k ret0 k' fl :
  cpu_thermal_init_loop P cpus k ret0 = Some (k', fl) ->
  match fl with
  | Next ret =>
      (cpus <> [] -> 0 <= ret) /\
      map qos_req (cpufreq_dev_list k') =
        rev cpus ++ map qos_req (cpufreq_dev_list k)
  | Return code =>
      code < 0 /\
      exists pre cpu post,
        cpus = pre ++ cpu :: post /\
        map qos_req (cpufreq_dev_list k') =
          rev pre ++ map qos_req (cpufreq_dev_list k)
  end.
Proof.
  revert k ret0; induction cpus as [|cpu rest IH]; intros k ret0; simpl.
  - intros [= <- <-]; split; [congruence | reflexivity].
  - destruct (cpu_thermal_init_body P k cpu) as [[k1 [ret1|code]]|] eqn:E;
      [| |discriminate]; apply cpu_thermal_init_body_cases in E.
    + destruct E as (Hret1 & cdev & f0 & Hl & Hreq & _).
      intros Hloop; specialize (IH _ _ Hloop).
      destruct fl as [ret|code].
      * destruct IH as [Hret Hmap]; split.
        -- intros _; destruct rest as [|c rest]; [|apply Hret; discriminate].
           simpl in Hloop; injection Hloop as _ <-; exact Hret1.
        -- rewrite Hmap, Hl; simpl; rewrite Hreq, <- app_assoc; reflexivity.
      * destruct IH as (Hneg & pre & c & post & -> & Hmap).
        split; [exact Hneg|].
        exists (cpu :: pre), c, post; split; [reflexivity|].
        rewrite Hmap, Hl; simpl; rewrite Hreq, <- app_assoc; reflexivity.
    + destruct E as (Hneg & Hl & _).
      intros [= <- <-]; split; [exact Hneg|].
      exists [], cpu, rest; split; [reflexivity|].
      rewrite Hl; reflexivity.
Qed.

Lemma cpu_thermal_init_loop_entries cpus k ret0 k' fl :
  cpu_thermal_init_loop P cpus k ret0 = Some (k', fl) ->
  exists new evs,
    cpufreq_dev_list k' = new ++ cpufreq_dev_list k /\
    Forall (fun d => In (qos_req d) cpus /\
                     cpufreq_cpu_get P (qos_req d) = Some (policy d) /\
                     id d = policy_cpu (policy d)) new /\
    history k' = history k ++ evs /\
    Forall (fun e => match e with
                     | FreqQosAdd _ _ | ListAdd _ => True
                     | _ => False
                     end) evs.
Proof.
  revert k ret0; induction cpus as [|cpu rest IH]; intros k ret0; simpl.
  - intros [= <- _]; exists [], []; rewrite app_nil_r.
    repeat split; constructor.
  - destruct (cpu_thermal_init_body P k cpu) as [[k1 [ret1|code]]|] eqn:E;
      [| |discriminate]; apply cpu_thermal_init_body_cases in E.
    + destruct E as (_ & cdev & f0 & Hl & Hreq & Hget & Hid & Hh).
      intros Hloop.
      destruct (IH _ _ Hloop) as (new & evs & Hl' & Hnew & Hh' & Hevs).
      exists (new ++ [cdev]), ([FreqQosAdd cpu f0; ListAdd cdev] ++ evs).
      split; [rewrite Hl', Hl, <- app_assoc; reflexivity|].
      split; [|split].
      * apply Forall_app; split.
        -- eapply Forall_impl; [|exact Hnew]; simpl.
           intros d (Hin & Hrest); split; [now right | exact Hrest].
        -- constructor; [|constructor].
           rewrite Hreq; split; [now left|]; split; [exact Hget | exact Hid].
      * rewrite Hh', Hh, <- app_assoc; reflexivity.
      * constructor; [exact I|]; constructor; [exact I | exact Hevs].
    + destruct E as (_ & Hl & Hh).
      intros [= <- _]; exists [].
      destruct Hh as [Hh | [f0 Hh]].
      * exists []; rewrite app_nil_r; repeat split; auto; constructor.
      * exists [FreqQosAdd cpu f0]; repeat split; auto;
          repeat constructor.
Qed.

End InitOutcome.

(** X9: the sign of the value returned by [cpu_thermal_init] tells what the
    table holds.  A non-negative value means that every possible processor
    got an entry; a negative value means that the loop stopped at some
    processor and only the processors before it have one.  Entries are added
    at the head, so the table lists the processors in reverse order. *)
Theorem cpu_thermal_init_outcome P k ret0 k' ret :
  possible_cpus P <> [] ->
  cpu_thermal_init P k ret0 = Some (k', ret) ->
  (0 <= ret /\
   map qos_req (cpufreq_dev_list k') =
     rev (possible_cpus P) ++ map qos_req (cpufreq_dev_list k)) \/
  (ret < 0 /\
   exists pre cpu post,
     possible_cpus P = pre ++ cpu :: post /\
     map qos_req (cpufreq_dev_list k') =
       rev pre ++ map qos_req (cpufreq_dev_list k)).
Proof.
  intros Hne; unfold cpu_thermal_init.
  destruct (cpu_thermal_init_loop P (possible_cpus P) k ret0)
    as [[k1 fl]|] eqn:E; [|discriminate].
  apply cpu_thermal_init_loop_outcome in E.
  destruct fl as [r|code]; intros [= <- <-].
  - left; destruct E as [Hret Hmap]; split; [now apply Hret | exact Hmap].
  - right; exact E.
Qed.

Lemma cpu_thermal_init_outcome_witness :
  exists k' ret,
    cpu_thermal_init platform_no_policy boot 0 = Some (k', ret) /\
    ret < 0 /\ map qos_req (cpufreq_dev_list k') = [0].
Proof.
  destruct (cpu_thermal_init platform_no_policy boot 0) as [[k' ret]|] eqn:E;
    [|discriminate].
  exists k', ret; split; [reflexivity|].
  destruct (cpu_thermal_init_outcome platform_no_policy boot 0 k' ret)
    as [[Hpos _] | [Hneg _]].
  - discriminate.
  - exact E.
  - injection E as <- <-; simpl in Hpos; unfold Errno.ESRCH in Hpos; lia.
  - split; [exact Hneg|]; injection E as <- <-; reflexivity.
Defined.

(** X10: entries are keyed by the cpu of the policy, not by the processor
    they were made for.  After initialisation from an empty table every
    entry carries the policy that the cpufreq core returned for its
    processor and has that policy's cpu as id; so a capping call for a
    processor number that is the cpu of no policy changes nothing, even if
    that processor has an entry. *)
Theorem entries_keyed_by_policy_cpu P ret0 k' ret :
  cpu_thermal_init P boot ret0 = Some (k', ret) ->
  Forall (fun d => In (qos_req d) (possible_cpus P) /\
                   cpufreq_cpu_get P (qos_req d) = Some (policy d) /\
                   id d = policy_cpu (policy d)) (cpufreq_dev_list k') /\
  forall cpu max_freq,
    (forall c pol, In c (possible_cpus P) ->
                   cpufreq_cpu_get P c = Some pol ->
                   to_u32 (policy_cpu pol) <> cpu) ->
    cpu_limits_set_level P k' cpu max_freq = Some k'.
Proof.
  unfold cpu_thermal_init.
  destruct (cpu_thermal_init_loop P (possible_cpus P) boot ret0)
    as [[k1 fl]|] eqn:E; [|discriminate].
  apply cpu_thermal_init_loop_entries in E
    as (new & evs & Hl & Hnew & _ & _).
  simpl in Hl; rewrite app_nil_r in Hl.
  intros Hk.
  assert (k1 = k') by (destruct fl; congruence); subst k1 new.
  split; [exact Hnew|].
  intros cpu max_freq Hown; unfold cpu_limits_set_level.
  rewrite (cpu_limits_walk_unknown P _ _ cpu max_freq).
  - destruct k'; reflexivity.
  - eapply Forall_impl; [|exact Hnew]; simpl.
    intros d (Hin & Hget & Hid); rewrite Hid.
    exact (Hown _ _ Hin Hget).
Qed.

Lemma entries_keyed_by_policy_cpu_witness :
  exists k',
    cpu_thermal_init platform_shared_policy boot 0 = Some (k', 1) /\
    map qos_req (cpufreq_dev_list k') = [1; 0] /\
    cpu_limits_set_level platform_shared_policy k' 1 1500 = Some k'.
Proof.
  destruct (cpu_thermal_init platform_shared_policy boot 0)
    as [[k' ret]|] eqn:E; [|discriminate].
  destruct (entries_keyed_by_policy_cpu platform_shared_policy 0 k' ret E)
    as [_ Hcap].
  injection E as <- <-.
  eexists; split; [reflexivity|]; split; [reflexivity|].
  apply Hcap.
  intros c pol _ [= <-]; simpl; discriminate.
Defined.

(** ** Initialisation followed by module exit *)

Lemma destory_events_removes l r :
  In (FreqQosRemove r) (destory_events l) ->
  exists cdev, In cdev l /\ qos_req cdev = r.
Proof.
  induction l as [|priv tmp IH]; simpl; [contradiction|].
  intros [[= <-] | [[=] | [[=] | Hin]]].
  - exists priv; split; [now left | reflexivity].
  - destruct (IH Hin) as (cdev & Hc & Hr).
    exists cdev; split; [now right | exact Hr].
Qed.

Lemma split_after_prefix (h ev before after : list event) (r : Z) :
  Forall (fun e => match e with
                   | FreqQosAdd _ _ | ListAdd _ => True
                   | _ => False
                   end) h ->
  h ++ ev = before ++ FreqQosRemove r :: after ->
  exists rest, before = h ++ rest /\ ev = rest ++ FreqQosRemove r :: after.
Proof.
  intros Hh; revert before; induction Hh as [|e h He Hh IH]; intros before E.
  - exists before; split; [reflexivity | exact E].
  - destruct before as [|b before]; simpl in E.
    + injection E as -> _; contradiction.
    + injection E as -> E.
      destruct (IH _ E) as (rest & -> & Hev).
      exists rest; split; [reflexivity | exact Hev].
Qed.

(** X11: initialisation and exit are balanced.  Starting from an empty
    table, [mi_thermal_interface_exit] run after [cpu_thermal_init] empties
    the table, removes the request of every entry that initialisation put
    in the table, and removes no request that was not added before. *)
Theorem init_then_exit_balanced P ret0 k1 ret :
  cpu_thermal_init P boot ret0 = Some (k1, ret) ->
  cpufreq_dev_list (mi_thermal_interface_exit k1) = [] /\
  (forall cdev, In cdev (cpufreq_dev_list k1) ->
     (exists f, In (FreqQosAdd (qos_req cdev) f) (history k1)) /\
     In (FreqQosRemove (qos_req cdev))
        (history (mi_thermal_interface_exit k1))) /\
  (forall before after r,
     history (mi_thermal_interface_exit k1) =
       before ++ FreqQosRemove r :: after ->
     exists f, In (FreqQosAdd r f) before).
Proof.
  unfold cpu_thermal_init, mi_thermal_interface_exit, destory_thermal_cpu.
  rewrite destory_walk_spec; simpl.
  destruct (cpu_thermal_init_loop P (possible_cpus P) boot ret0)
    as [[k fl]|] eqn:E; [|discriminate].
  intros Hk; assert (k = k1) by (destruct fl; congruence); subst k; clear Hk.
  destruct (cpu_thermal_init_loop_entries P _ _ _ _ _ E)
    as (new' & evs & _ & _ & Hh & Hevs); simpl in Hh.
  destruct (cpu_thermal_init_loop_invariant P (possible_cpus P) boot ret0)
    as (k' & fl' & new & E' & Hl & _ & Hseed & _).
  rewrite E in E'; injection E' as <- <-.
  simpl in Hl; rewrite app_nil_r in Hl; subst new.
  assert (Hadd : forall cdev, In cdev (cpufreq_dev_list k1) ->
                   exists f, In (FreqQosAdd (qos_req cdev) f) (history k1)).
  { intros cdev Hin; rewrite Forall_forall in Hseed.
    destruct (Hseed cdev Hin) as (_ & _ & f0 & _ & Hf0 & _).
    now exists f0. }
  split; [reflexivity|]; split.
  - intros cdev Hin; split; [now apply Hadd|].
    apply in_or_app; right; now apply destory_events_cover.
  - intros before after r Hsplit.
    rewrite Hh in Hsplit.
    destruct (split_after_prefix _ _ _ _ _ Hevs Hsplit) as (rest & -> & Hev).
    assert (Hin : In (FreqQosRemove r) (destory_events (cpufreq_dev_list k1))).
    { rewrite Hev; apply in_or_app; right; now left. }
    apply destory_events_removes in Hin as (cdev & Hc & <-).
    destruct (Hadd cdev Hc) as [f Hf]; exists f.
    apply in_or_app; left; rewrite <- Hh; exact Hf.
Qed.

Lemma init_then_exit_balanced_witness :
  exists k1,
    cpu_thermal_init platform_shared_policy boot 0 = Some (k1, 1) /\
    cpufreq_dev_list (mi_thermal_interface_exit k1) = [] /\
    In (FreqQosRemove 1) (history (mi_thermal_interface_exit k1)).
Proof.
  destruct (cpu_thermal_init platform_shared_policy boot 0)
    as [[k1 ret]|] eqn:E; [|discriminate].
  destruct (init_then_exit_balanced platform_shared_policy 0 k1 ret E)
    as (Hl & Hrem & _).
  injection E as <- <-.
  eexists; split; [reflexivity|]; split; [exact Hl|].
  simpl; tauto.
Defined.

(** ** Screen monitor *)

(** X12: the screen notifier keeps [sm.screen_state] within 0 and 1.  An
    event of another kind, or one without data, is ignored: the state is
    kept, 0 is returned and user space is not notified.  A DPMS event sets
    the state to 1 exactly when the blank value is [MI_DISP_DPMS_ON],
    returns [NOTIFY_OK] and notifies user space.  Hence, from a state that
    is 0 or 1, any sequence of events leaves it 0 or 1. *)
Theorem screen_state_is_boolean EVENT ON OK screen_state events :
  (screen_state = 0 \/ screen_state = 1) ->
  (screen_state_after EVENT ON OK screen_state events = 0 \/
   screen_state_after EVENT ON OK screen_state events = 1) /\
  (forall val data,
      (val <> EVENT \/ data = None \/ data = Some None) ->
      screen_state_for_thermal_callback EVENT ON OK screen_state val data =
        (screen_state, 0, false)) /\
  (forall blank,
      screen_state_for_thermal_callback EVENT ON OK screen_state EVENT
                                        (Some (Some blank)) =
        ((if to_u32 blank =? to_u32 ON then 1 else 0), OK, true)).
Proof.
  intros Hs; split; [|split].
  - revert screen_state Hs; induction events as [|[val data] rest IH];
      intros screen_state Hs; simpl; [exact Hs|].
    apply IH; unfold screen_state_for_thermal_callback.
    destruct data as [[blank|]|]; simpl; auto.
    destruct (negb (val =? EVENT)); simpl; auto.
    destruct (to_u32 blank =? to_u32 ON); auto.
  - intros val data Hign; unfold screen_state_for_thermal_callback.
    destruct data as [[blank|]|]; try reflexivity.
    destruct Hign as [Hne | [Hn | Hn]]; try discriminate.
    apply Z.eqb_neq in Hne; rewrite Hne; reflexivity.
  - intros blank; unfold screen_state_for_thermal_callback.
    rewrite Z.eqb_refl; reflexivity.
Qed.

Lemma screen_state_is_boolean_witness :
  screen_state_after 1 0 1 0
    [(1, Some (Some 0)); (2, None); (1, Some (Some 3))] = 0 \/
  screen_state_after 1 0 1 0
    [(1, Some (Some 0)); (2, None); (1, Some (Some 3))] = 1.
Proof.
  apply (screen_state_is_boolean 1 0 1 0
           [(1, Some (Some 0)); (2, None); (1, Some (Some 3))]).
  now left.
Defined.

(** ** Sequences of writes *)

Lemma cpu_limits_walk_history P l h cpu max_freq l' h' :
  cpu_limits_walk P l h cpu max_freq = Some (l', h') ->
  h' = h \/ exists req v, h' = h ++ [FreqQosUpdate req v].
Proof.
  revert l'; induction l as [|cdev l IH]; intros l'; simpl.
  - intros [= _ <-]; now left.
  - destruct (to_u32 (id cdev) =? cpu).
    + destruct (resolve cdev max_freq) as [[level|]|]; try discriminate.
      * unfold cpufreq_set_level.
        destruct (_ <? _)%nat; [intros [= _ <-]; now left|].
        destruct (_ =? _)%nat; [intros [= _ <-]; now left|].
        destruct (nth_error _ _) as [v|]; [|discriminate].
        intros [= _ <-]; right; now exists (qos_req cdev), v.
      * intros [= _ <-]; now left.
    + destruct (cpu_limits_walk P l h cpu max_freq) as [[rest' h1]|];
        [|discriminate].
      intros [= _ <-]; now apply (IH rest').
Qed.

Lemma cpu_limits_writes_safe P writes k :
  Forall wf_device (cpufreq_dev_list k) ->
  exists k2 evs,
    cpu_limits_writes P k writes = Some k2 /\
    Forall wf_device (cpufreq_dev_list k2) /\
    map freq_table (cpufreq_dev_list k2) = map freq_table (cpufreq_dev_list k) /\
    map max_level (cpufreq_dev_list k2) = map max_level (cpufreq_dev_list k) /\
    history k2 = history k ++ evs /\
    Forall (fun e => is_update e = true) evs /\
    (length evs <= length writes)%nat.
Proof.
  revert k; induction writes as [|[parsed len] rest IH]; intros k Hwf; simpl.
  - exists k, []; rewrite app_nil_r; repeat split; auto.
  - destruct parsed as [[cpu max_freq]|]; simpl.
    + destruct (cpu_limits_walk_invariant P _ (history k) cpu max_freq Hwf)
        as (l' & h' & E & Hwf' & Ht & Hm).
      unfold cpu_limits_set_level; rewrite E.
      destruct (IH {| cpufreq_dev_list := l'; history := h' |} Hwf')
        as (k2 & evs & E2 & Hwf2 & Ht2 & Hm2 & Hh2 & Hevs & Hlen).
      simpl in *.
      apply cpu_limits_walk_history in E as [-> | (req & v & ->)].
      * exists k2, evs; rewrite E2, Ht2, Hm2, Ht, Hm.
        repeat split; auto.
      * exists k2, (FreqQosUpdate req v :: evs).
        rewrite E2, Ht2, Hm2, Ht, Hm, Hh2, <- app_assoc.
        repeat split; auto; simpl; lia.
    + destruct (IH k Hwf)
        as (k2 & evs & E2 & Hwf2 & Ht2 & Hm2 & Hh2 & Hevs & Hlen).
      exists k2, evs; repeat split; auto.
Qed.

(** X13: the capping path never reads a ladder outside its slots.  From an
    empty table, initialisation always completes, and after it any sequence
    of writes to [cpu_limits], well-formed or not, runs to the end: every
    entry keeps a level within its ladder, no ladder changes, and the only
    calls made are backend updates, at most one per write. *)
Theorem capping_path_is_safe P ret0 writes :
  exists k1 ret k2 evs,
    cpu_thermal_init P boot ret0 = Some (k1, ret) /\
    cpu_limits_writes P k1 writes = Some k2 /\
    Forall wf_device (cpufreq_dev_list k2) /\
    map freq_table (cpufreq_dev_list k2) =
      map freq_table (cpufreq_dev_list k1) /\
    history k2 = history k1 ++ evs /\
    Forall (fun e => is_update e = true) evs /\
    (length evs <= length writes)%nat.
Proof.
  destruct (cpu_thermal_init_loop_invariant P (possible_cpus P) boot ret0)
    as (k1 & fl & new & E & Hl & Hnew & _ & _).
  simpl in Hl; rewrite app_nil_r in Hl; subst new.
  destruct (cpu_limits_writes_safe P writes k1 Hnew)
    as (k2 & evs & E2 & Hwf2 & Ht2 & _ & Hh2 & Hevs & Hlen).
  exists k1, (match fl with Next r => r | Return c => c end), k2, evs.
  split; [unfold cpu_thermal_init; rewrite E; destruct fl; reflexivity|].
  repeat split; auto.
Qed.
